(** * OLLAP: the incremental response pipeline

    A shallow embedding of the four pieces of the chat pipeline of the
    OLLAP front end, and the properties its specification states about them:

    - the NDJSON relay of [app/api/chat/route.ts] together with the wire
      schema of [lib/api-schemas.ts];
    - the stream consumer [streamChat] of [lib/streamChat.ts];
    - the token handler, the duplicate detector and [calculateSimilarity]
      of [app/chat/[sessionId]/page.tsx];
    - the formula normalizer [cleanLaTeX] of [lib/latex-cleaner.ts].

    JavaScript strings are sequences of UTF-16 code units and are modelled
    as [list N]; byte chunks are [list byte]. *)

From Stdlib Require Import NArith ZArith QArith Lia Strings.String Strings.Ascii Strings.Byte.
From stdpp Require Import base list gmap.

Set Warnings "-register-all".
Local Open Scope N_scope.

(** A JavaScript string: its UTF-16 code units, in order. *)
Abbreviation jsstring := (list N).

(* ===================================================================== *)
(** ** JavaScript string primitives *)
(* ===================================================================== *)

Module JS.

(** A literal of ASCII characters as a JavaScript string. *)
Definition lit (s : string) : jsstring :=
  List.map N_of_ascii (list_ascii_of_string s).

(** The same, with every apostrophe read as a double quote, so that JSON
    text can be written down without escaping. *)
Definition jsonlit (s : string) : jsstring :=
  List.map (fun c => if c =? 39 then 34 else c) (lit s).

Arguments lit s%_string.
Arguments jsonlit s%_string.

(** [WhiteSpace] and [LineTerminator] of ECMAScript: the code units matched
    by the regular expression class [\s] and removed by [trim]. *)
Definition isWhiteSpace (c : N) : bool :=
  (9 <=? c) && (c <=? 13)
  || (c =? 32) || (c =? 160) || (c =? 0x1680)
  || (0x2000 <=? c) && (c <=? 0x200A)
  || (c =? 0x2028) || (c =? 0x2029) || (c =? 0x202F)
  || (c =? 0x205F) || (c =? 0x3000) || (c =? 0xFEFF).

Fixpoint trimStart (s : jsstring) : jsstring :=
  match s with
  | [] => []
  | c :: s' => if isWhiteSpace c then trimStart s' else s
  end.

Definition trimEnd (s : jsstring) : jsstring :=
  reverse (trimStart (reverse s)).

(** [String.prototype.trim]. *)
Definition trim (s : jsstring) : jsstring := trimEnd (trimStart s).

(** Truthiness of a string: [if (s)] holds when [s] is not empty. *)
Definition truthy (s : jsstring) : bool :=
  match s with [] => false | _ => true end.

(** [s.split(sep)] for a one-unit separator: the pieces between the
    separators, in order; never the empty array. *)
Fixpoint split (sep : N) (s : jsstring) : list jsstring :=
  match s with
  | [] => [[]]
  | c :: s' =>
      if c =? sep then [] :: split sep s'
      else match split sep s' with
           | l :: ls => (c :: l) :: ls
           | [] => [[c]]
           end
  end.

(** [a.pop()]: the array without its last element, and that element
    ([None] for [undefined], on the empty array). *)
Definition pop {A} (a : list A) : list A * option A :=
  (removelast a, last a).

(** [x || ''] on the result of [pop]. *)
Definition orEmpty (x : option jsstring) : jsstring :=
  match x with
  | Some s => s
  | None => []
  end.

(** [s.startsWith(p)]. *)
Fixpoint startsWith (p s : jsstring) : bool :=
  match p, s with
  | [], _ => true
  | _ :: _, [] => false
  | a :: p', b :: s' => (a =? b) && startsWith p' s'
  end.

(** [s.indexOf(p)], counted from the start of [s]; [None] stands for -1. *)
Fixpoint indexOf (p s : jsstring) : option nat :=
  if startsWith p s then Some 0%nat
  else match s with
       | [] => None
       | _ :: s' => S <$> indexOf p s'
       end.

(** [s.indexOf(p, from)]. *)
Definition indexOfFrom (p s : jsstring) (from : nat) : option nat :=
  (fun i => (from `min` length s + i)%nat) <$> indexOf p (drop from s).

(** [s.includes(p)]. *)
Definition includes (p s : jsstring) : bool :=
  match indexOf p s with Some _ => true | None => false end.

(** [s.substring(a, b)]: the arguments are clamped to the length and
    swapped when out of order. *)
Definition substring (a b : nat) (s : jsstring) : jsstring :=
  take ((a `max` b) - (a `min` b)) (drop (a `min` b) s).

(** [s.substring(a)]. *)
Definition substringFrom (a : nat) (s : jsstring) : jsstring := drop a s.

(** [a.join(sep)]. *)
Fixpoint join (sep : jsstring) (a : list jsstring) : jsstring :=
  match a with
  | [] => []
  | [x] => x
  | x :: a' => x ++ sep ++ join sep a'
  end.

(** [s.replace(/\s+/g, ' ')]: every maximal run of white space becomes one
    space. *)
Fixpoint collapseFrom (inrun : bool) (s : jsstring) : jsstring :=
  match s with
  | [] => []
  | c :: s' =>
      if isWhiteSpace c
      then (if inrun then collapseFrom true s' else 32 :: collapseFrom true s')
      else c :: collapseFrom false s'
  end.

Definition collapseWhitespace (s : jsstring) : jsstring := collapseFrom false s.

(** [s.split(/\s+/)]: the pieces between the maximal runs of white space
    (the first or last piece is empty when [s] starts or ends with one). *)
Fixpoint splitWsFrom (inrun : bool) (s : jsstring) : list jsstring :=
  match s with
  | [] => [[]]
  | c :: s' =>
      if isWhiteSpace c
      then (if inrun then splitWsFrom true s' else [] :: splitWsFrom true s')
      else match splitWsFrom false s' with
           | l :: ls => (c :: l) :: ls
           | [] => [[c]]
           end
  end.

Definition splitWhitespace (s : jsstring) : list jsstring := splitWsFrom false s.

(** [s.split(/\n{2,}/)]: the pieces between the maximal runs of two or more
    line feeds; a single line feed stays inside its piece. *)
Fixpoint splitBlankFrom (inrun : bool) (s : jsstring) : list jsstring :=
  match s with
  | [] => [[]]
  | c :: s' =>
      if (c =? 10) && (inrun || match s' with c2 :: _ => c2 =? 10 | [] => false end)
      then (if inrun then splitBlankFrom true s' else [] :: splitBlankFrom true s')
      else match splitBlankFrom false s' with
           | l :: ls => (c :: l) :: ls
           | [] => [[c]]
           end
  end.

Definition splitBlankLines (s : jsstring) : list jsstring := splitBlankFrom false s.

(** Lower case of the 26 ASCII capitals; the other code units are kept. *)
Definition asciiLower (c : N) : N :=
  if (65 <=? c) && (c <=? 90) then c + 32 else c.

(** [String.prototype.toLowerCase] on strings of ASCII code units. *)
Definition toLowerCaseAscii (s : jsstring) : jsstring := List.map asciiLower s.

End JS.

(* ===================================================================== *)
(** ** The UTF-8 decoder behind [TextDecoder.decode(value, {stream: true})] *)
(* ===================================================================== *)

Module Utf8.

(** The decoder of the Encoding standard keeps the code point under
    construction, the bytes seen and needed, and the bounds of the next
    continuation byte; [bom_seen] records that the first scalar value has
    gone through (a leading U+FEFF is dropped). With [stream: true] this
    state survives from one call of [decode] to the next. *)
Record state := mkState {
  code_point : N;
  bytes_seen : N;
  bytes_needed : N;
  lower : N;
  upper : N;
  bom_seen : bool
}.

Definition init : state := mkState 0 0 0 0x80 0xBF false.

Definition reset (st : state) : state := mkState 0 0 0 0x80 0xBF (bom_seen st).

(** A byte met while no sequence is open. The result lists the scalar
    values produced (U+FFFD for an error). *)
Definition lead (st : state) (b : N) : state * list N :=
  if b <=? 0x7F then (st, [b])
  else if (0xC2 <=? b) && (b <=? 0xDF) then
    (mkState (N.land b 0x1F) 0 1 0x80 0xBF (bom_seen st), [])
  else if (0xE0 <=? b) && (b <=? 0xEF) then
    (mkState (N.land b 0xF) 0 2
       (if b =? 0xE0 then 0xA0 else 0x80)
       (if b =? 0xED then 0x9F else 0xBF) (bom_seen st), [])
  else if (0xF0 <=? b) && (b <=? 0xF4) then
    (mkState (N.land b 0x7) 0 3
       (if b =? 0xF0 then 0x90 else 0x80)
       (if b =? 0xF4 then 0x8F else 0xBF) (bom_seen st), [])
  else (st, [0xFFFD]).

(** One byte through the decoder. A byte outside the expected bounds ends
    the open sequence with an error and is then read again as a lead. *)
Definition handler (st : state) (b : N) : state * list N :=
  if bytes_needed st =? 0 then lead st b
  else if negb ((lower st <=? b) && (b <=? upper st)) then
    let '(st', out) := lead (reset st) b in (st', 0xFFFD :: out)
  else
    let cp := N.lor (N.shiftl (code_point st) 6) (N.land b 0x3F) in
    let seen := bytes_seen st + 1 in
    if seen =? bytes_needed st then (reset st, [cp])
    else (mkState cp seen (bytes_needed st) 0x80 0xBF (bom_seen st), []).

(** A scalar value as UTF-16: itself, or a surrogate pair above U+FFFF. *)
Definition utf16 (cp : N) : jsstring :=
  if cp <? 0x10000 then [cp]
  else [0xD800 + N.shiftr (cp - 0x10000) 10; 0xDC00 + N.land (cp - 0x10000) 0x3FF].

(** Serialization of the scalar values: the first one is dropped when it
    is the byte order mark. *)
Fixpoint serialize (bom : bool) (cps : list N) : bool * jsstring :=
  match cps with
  | [] => (bom, [])
  | cp :: cps' =>
      let '(bom', t) := serialize true cps' in
      (bom', (if negb bom && (cp =? 0xFEFF) then [] else utf16 cp) ++ t)
  end.

Definition step (st : state) (b : byte) : state * jsstring :=
  let '(st1, cps) := handler st (Byte.to_N b) in
  let '(bom, t) := serialize (bom_seen st1) cps in
  (mkState (code_point st1) (bytes_seen st1) (bytes_needed st1)
           (lower st1) (upper st1) bom, t).

(** [decoder.decode(chunk, {stream: true})] from decoder state [st]: the
    new state and the text returned. *)
Fixpoint decode (st : state) (chunk : list byte) : state * jsstring :=
  match chunk with
  | [] => (st, [])
  | b :: rest =>
      let '(st1, t1) := step st b in
      let '(st2, t2) := decode st1 rest in
      (st2, t1 ++ t2)
  end.

(** The bytes of an ASCII literal. *)
Definition bytes (s : jsstring) : list byte :=
  List.map (fun c => default x00 (Byte.of_N c)) s.

End Utf8.

(* ===================================================================== *)
(** ** JSON: the values, [JSON.parse] and the quoting of [JSON.stringify] *)
(* ===================================================================== *)

Module Json.

(** The values [JSON.parse] returns. No field of the wire schema is a
    number, so a number is kept as the text of its literal. The members of
    an object are kept as written; a key written twice reads as its last
    occurrence ([get]). *)
Inductive value :=
| JNull
| JBool (b : bool)
| JNumber (literal : jsstring)
| JString (s : jsstring)
| JArray (items : list value)
| JObject (members : list (jsstring * value)).

(** JSON white space: space, tab, line feed, carriage return. *)
Definition isWs (c : N) : bool :=
  (c =? 32) || (c =? 9) || (c =? 10) || (c =? 13).

Fixpoint skipWs (s : jsstring) : jsstring :=
  match s with
  | [] => []
  | c :: s' => if isWs c then skipWs s' else s
  end.

Definition isDigit (c : N) : bool := (48 <=? c) && (c <=? 57).

Definition hexValue (c : N) : option N :=
  if isDigit c then Some (c - 48)
  else if (97 <=? c) && (c <=? 102) then Some (c - 87)
  else if (65 <=? c) && (c <=? 70) then Some (c - 55)
  else None.

(** The characters of a string literal after its opening quote, up to and
    including the closing quote: the string denoted and the rest. *)
Fixpoint parseChars (s : jsstring) : option (jsstring * jsstring) :=
  match s with
  | [] => None
  | c :: s' =>
      if c =? 34 then Some ([], s')
      else if c <? 32 then None
      else if c =? 92 then
        match s' with
        | [] => None
        | e :: s'' =>
            let simple (u : N) :=
              match parseChars s'' with
              | Some (t, r) => Some (u :: t, r)
              | None => None
              end in
            if e =? 34 then simple 34
            else if e =? 92 then simple 92
            else if e =? 47 then simple 47
            else if e =? 98 then simple 8
            else if e =? 102 then simple 12
            else if e =? 110 then simple 10
            else if e =? 114 then simple 13
            else if e =? 116 then simple 9
            else if e =? 117 then
              match s'' with
              | h1 :: h2 :: h3 :: h4 :: s5 =>
                  match hexValue h1, hexValue h2, hexValue h3, hexValue h4 with
                  | Some a, Some b, Some c', Some d =>
                      match parseChars s5 with
                      | Some (t, r) => Some (((a * 16 + b) * 16 + c') * 16 + d :: t, r)
                      | None => None
                      end
                  | _, _, _, _ => None
                  end
              | _ => None
              end
            else None
        end
      else
        match parseChars s' with
        | Some (t, r) => Some (c :: t, r)
        | None => None
        end
  end.

(** The longest prefix of digits, and the rest. *)
Fixpoint digits (s : jsstring) : jsstring * jsstring :=
  match s with
  | [] => ([], [])
  | c :: s' =>
      if isDigit c then let '(d, r) := digits s' in (c :: d, r) else ([], s)
  end.

(** A number literal at the head of [s]: an optional minus sign, then 0 or
    a digit from 1 to 9 followed by digits, then optionally a point and one
    or more digits, then optionally e or E, a sign and one or more digits. *)
Definition parseNumber (s : jsstring) : option (jsstring * jsstring) :=
  let '(sign, s1) :=
    match s with
    | c :: s' => if c =? 45 then ([c], s') else ([], s)
    | [] => ([], s)
    end in
  let '(int, s2) := digits s1 in
  match int with
  | [] => None
  | d :: int' =>
      if (d =? 48) && JS.truthy int' then None
      else
        let frac :=
          match s2 with
          | c :: s' =>
              if c =? 46 then
                let '(f, r) := digits s' in
                match f with [] => None | _ => Some (c :: f, r) end
              else Some ([], s2)
          | [] => Some ([], s2)
          end in
        match frac with
        | None => None
        | Some (f, s3) =>
            let expo :=
              match s3 with
              | c :: s' =>
                  if (c =? 101) || (c =? 69) then
                    let '(sg, s'') :=
                      match s' with
                      | g :: t => if (g =? 43) || (g =? 45) then ([g], t) else ([], s')
                      | [] => ([], s')
                      end in
                    let '(e, r) := digits s'' in
                    match e with [] => None | _ => Some (c :: sg ++ e, r) end
                  else Some ([], s3)
              | [] => Some ([], s3)
              end in
            match expo with
            | None => None
            | Some (e, s4) => Some (sign ++ int ++ f ++ e, s4)
            end
        end
  end.

(** Recursive descent on the grammar of ECMA-404, one level at a time:
    each of the three functions below takes the parsers of what is nested
    in the text it reads. *)

(** A value, after optional white space. *)
Definition valueStep
    (members : jsstring -> option (list (jsstring * value) * jsstring))
    (elements : jsstring -> option (list value * jsstring))
    (s : jsstring) : option (value * jsstring) :=
  match skipWs s with
  | [] => None
  | c :: r =>
      if c =? 123 then
        match skipWs r with
        | c' :: r' =>
            if c' =? 125 then Some (JObject [], r')
            else match members r with
                 | Some (ms, r'') => Some (JObject ms, r'')
                 | None => None
                 end
        | [] => None
        end
      else if c =? 91 then
        match skipWs r with
        | c' :: r' =>
            if c' =? 93 then Some (JArray [], r')
            else match elements r with
                 | Some (vs, r'') => Some (JArray vs, r'')
                 | None => None
                 end
        | [] => None
        end
      else if c =? 34 then
        match parseChars r with
        | Some (t, r') => Some (JString t, r')
        | None => None
        end
      else if JS.startsWith (JS.lit "true") (c :: r) then Some (JBool true, drop 4 (c :: r))
      else if JS.startsWith (JS.lit "false") (c :: r) then Some (JBool false, drop 5 (c :: r))
      else if JS.startsWith (JS.lit "null") (c :: r) then Some (JNull, drop 4 (c :: r))
      else match parseNumber (c :: r) with
           | Some (n, r') => Some (JNumber n, r')
           | None => None
           end
  end.

(** The elements of an array after its opening bracket, up to and
    including the closing bracket. *)
Definition elementsStep
    (value' : jsstring -> option (value * jsstring))
    (elements : jsstring -> option (list value * jsstring))
    (s : jsstring) : option (list value * jsstring) :=
  match value' s with
  | None => None
  | Some (v, r) =>
      match skipWs r with
      | c :: r' =>
          if c =? 44 then
            match elements r' with
            | Some (vs, r'') => Some (v :: vs, r'')
            | None => None
            end
          else if c =? 93 then Some ([v], r')
          else None
      | [] => None
      end
  end.

(** The members of an object after its opening brace, up to and including
    the closing brace. *)
Definition membersStep
    (value' : jsstring -> option (value * jsstring))
    (members : jsstring -> option (list (jsstring * value) * jsstring))
    (s : jsstring) : option (list (jsstring * value) * jsstring) :=
  match skipWs s with
  | q :: r0 =>
      if q =? 34 then
        match parseChars r0 with
        | None => None
        | Some (k, r1) =>
            match skipWs r1 with
            | c :: r2 =>
                if c =? 58 then
                  match value' r2 with
                  | None => None
                  | Some (v, r3) =>
                      match skipWs r3 with
                      | c' :: r4 =>
                          if c' =? 44 then
                            match members r4 with
                            | Some (ms, r5) => Some ((k, v) :: ms, r5)
                            | None => None
                            end
                          else if c' =? 125 then Some ([(k, v)], r4)
                          else None
                      | [] => None
                      end
                  end
                else None
            | [] => None
            end
        end
      else None
  | [] => None
  end.

(** The fuel bounds the chain of nested calls; [parse] starts with enough
    of it for its text ([parse_fuel_enough] below). *)
Fixpoint parseValue (fuel : nat) (s : jsstring) : option (value * jsstring) :=
  match fuel with
  | O => None
  | S fuel => valueStep (parseMembers fuel) (parseElements fuel) s
  end
with parseElements (fuel : nat) (s : jsstring) : option (list value * jsstring) :=
  match fuel with
  | O => None
  | S fuel => elementsStep (parseValue fuel) (parseElements fuel) s
  end
with parseMembers (fuel : nat) (s : jsstring)
  : option (list (jsstring * value) * jsstring) :=
  match fuel with
  | O => None
  | S fuel => membersStep (parseValue fuel) (parseMembers fuel) s
  end.

(** [JSON.parse(text)]; [None] stands for the [SyntaxError] it throws. *)
Definition parse (text : jsstring) : option value :=
  match parseValue (2 * length text + 2) text with
  | Some (v, r) => match skipWs r with [] => Some v | _ => None end
  | None => None
  end.

(** [o[k]] on a parsed value: the last member written under [k]; [None]
    stands for [undefined]. *)
Fixpoint get (k : jsstring) (ms : list (jsstring * value)) : option value :=
  match ms with
  | [] => None
  | (k', v) :: ms' =>
      match get k ms' with
      | Some v' => Some v'
      | None => if decide (k' = k) then Some v else None
      end
  end.

Definition hexDigit (n : N) : N := if n <? 10 then 48 + n else 87 + n.

(** [\uXXXX] with lower-case digits. *)
Definition unicodeEscape (c : N) : jsstring :=
  [92; 117; hexDigit (N.shiftr c 12 mod 16); hexDigit (N.shiftr c 8 mod 16);
   hexDigit (N.shiftr c 4 mod 16); hexDigit (c mod 16)].

Definition isLead (c : N) : bool := (0xD800 <=? c) && (c <=? 0xDBFF).
Definition isTrail (c : N) : bool := (0xDC00 <=? c) && (c <=? 0xDFFF).

(** The body of [QuoteJSONString]: the short escapes, [\u] escapes for
    the other controls and for lone surrogates, everything else as is. *)
Fixpoint quoteBody (s : jsstring) : jsstring :=
  match s with
  | [] => []
  | c :: s' =>
      if c =? 8 then 92 :: 98 :: quoteBody s'
      else if c =? 9 then 92 :: 116 :: quoteBody s'
      else if c =? 10 then 92 :: 110 :: quoteBody s'
      else if c =? 12 then 92 :: 102 :: quoteBody s'
      else if c =? 13 then 92 :: 114 :: quoteBody s'
      else if c =? 34 then 92 :: 34 :: quoteBody s'
      else if c =? 92 then 92 :: 92 :: quoteBody s'
      else if c <? 32 then unicodeEscape c ++ quoteBody s'
      else if isLead c then
        match s' with
        | d :: s'' =>
            if isTrail d then c :: d :: quoteBody s''
            else unicodeEscape c ++ quoteBody s'
        | [] => unicodeEscape c
        end
      else if isTrail c then unicodeEscape c ++ quoteBody s'
      else c :: quoteBody s'
  end.

(** [JSON.stringify(s)] for a string [s]. *)
Definition quote (s : jsstring) : jsstring := 34 :: quoteBody s ++ [34].

End Json.

(* ===================================================================== *)
(** ** The wire schema of [lib/api-schemas.ts] *)
(* ===================================================================== *)

Module Schema.
Import Json.


(** [ChatStreamEvent]: what [ChatStreamEventSchema] infers. The schema is
    the discriminated union of the delta, error and done schemas. *)
Inductive ChatStreamEvent :=
| Delta (token : jsstring)
| Error (message : jsstring) (code : option jsstring)
| Done.

(** [.strict()]: no key of the object is outside the shape. *)
Definition strict (shape : list jsstring) (ms : list (jsstring * value)) : bool :=
  forallb (fun kv => bool_decide (kv.1 ∈ shape)) ms.

(** [z.literal(l)] on the field [type]. *)
Definition literal (l : jsstring) (v : option value) : bool :=
  match v with
  | Some (JString s) => bool_decide (s = l)
  | _ => false
  end.

(** [ChatStreamDeltaSchema]: type 'delta', a token of at least one code
    unit, nothing else. *)
Definition ChatStreamDeltaSchema (v : value) : option ChatStreamEvent :=
  match v with
  | JObject ms =>
      match get (JS.lit "token") ms with
      | Some (JString token) =>
          if literal (JS.lit "delta") (get (JS.lit "type") ms)
             && (1 <=? length token)%nat
             && strict [JS.lit "type"; JS.lit "token"] ms
          then Some (Delta token) else None
      | _ => None
      end
  | _ => None
  end.

(** [ChatStreamErrorSchema]: type 'error', a message of at least one code
    unit, an optional code of at most 100, nothing else. *)
Definition ChatStreamErrorSchema (v : value) : option ChatStreamEvent :=
  match v with
  | JObject ms =>
      match get (JS.lit "message") ms with
      | Some (JString message) =>
          if literal (JS.lit "error") (get (JS.lit "type") ms)
             && (1 <=? length message)%nat
             && strict [JS.lit "type"; JS.lit "message"; JS.lit "code"] ms
          then
            match get (JS.lit "code") ms with
            | None => Some (Error message None)
            | Some (JString code) =>
                if (length code <=? 100)%nat then Some (Error message (Some code))
                else None
            | Some _ => None
            end
          else None
      | _ => None
      end
  | _ => None
  end.

(** [ChatStreamDoneSchema]: type 'done', nothing else. *)
Definition ChatStreamDoneSchema (v : value) : option ChatStreamEvent :=
  match v with
  | JObject ms =>
      if literal (JS.lit "done") (get (JS.lit "type") ms) && strict [JS.lit "type"] ms
      then Some Done else None
  | _ => None
  end.

(** [ChatStreamEventSchema.safeParse(v)]: [Some data] on success, [None]
    on failure. The union looks the value of [type] up among the three
    literals and runs the schema found. *)
Definition ChatStreamEventSchema (v : value) : option ChatStreamEvent :=
  match v with
  | JObject ms =>
      match get (JS.lit "type") ms with
      | Some (JString ty) =>
          if bool_decide (ty = JS.lit "delta") then ChatStreamDeltaSchema v
          else if bool_decide (ty = JS.lit "error") then ChatStreamErrorSchema v
          else if bool_decide (ty = JS.lit "done") then ChatStreamDoneSchema v
          else None
      | _ => None
      end
  | _ => None
  end.

(** [JSON.stringify(data)] for validated data: the keys in the order of
    the shape, an absent code left out. *)
Definition stringify (e : ChatStreamEvent) : jsstring :=
  match e with
  | Delta token =>
      JS.jsonlit "{'type':'delta','token':" ++ quote token ++ JS.lit "}"
  | Error message code =>
      JS.jsonlit "{'type':'error','message':" ++ quote message
      ++ match code with
         | Some c => JS.jsonlit ",'code':" ++ quote c
         | None => []
         end
      ++ JS.lit "}"
  | Done => JS.jsonlit "{'type':'done'}"
  end.

End Schema.

(* ===================================================================== *)
(** ** The relay: the stream of [POST] in [app/api/chat/route.ts] *)
(* ===================================================================== *)

Module Relay.
Import Json Schema.


(** [controller.enqueue(encoder.encode(JSON.stringify(e) + '\n'))]: the
    text handed to the encoder. *)
Definition enqueue (e : ChatStreamEvent) : jsstring := stringify e ++ [10].

(** The event built when a line fails validation. [.parse] throws on a
    failure ([None]); the [catch] around the line would then skip it. *)
Definition errorEvent : option ChatStreamEvent :=
  ChatStreamErrorSchema
    (JObject [(JS.lit "type", JString (JS.lit "error"));
              (JS.lit "message", JString (JS.lit "Invalid event format from backend"));
              (JS.lit "code", JString (JS.lit "validation_error"))]).

(** The body of [for (const line of lines)]: what one complete line adds
    to the output. *)
Definition forwardLine (line : jsstring) : list jsstring :=
  if negb (JS.truthy (JS.trim line)) then []
  else match parse line with
       | None => []
       | Some parsed =>
           match ChatStreamEventSchema parsed with
           | Some data => [enqueue data]
           | None =>
               match errorEvent with
               | Some e => [enqueue e]
               | None => []
               end
           end
       end.

(** "Process remaining buffer": what the text left at the end of the
    upstream adds to the output. *)
Definition flushBuffer (buffer : jsstring) : list jsstring :=
  if JS.truthy (JS.trim buffer) then
    match parse buffer with
    | None => []
    | Some parsed =>
        match ChatStreamEventSchema parsed with
        | Some data => [enqueue data]
        | None => []
        end
    end
  else [].

(** The variables of the read loop, and the output so far. *)
Record state := mkState {
  decoder : Utf8.state;
  buffer : jsstring;
  enqueued : list jsstring
}.

Definition init : state := mkState Utf8.init [] [].

(** One turn of [while (true)] on a chunk that was read. *)
Definition read (st : state) (value : list byte) : state :=
  let '(dec, text) := Utf8.decode (decoder st) value in
  let '(lines, last) := JS.pop (JS.split 10 (buffer st ++ text)) in
  mkState dec (JS.orEmpty last) (enqueued st ++ flat_map forwardLine lines).

(** The whole stream: the chunks in the order read, then the flush. *)
Definition POST_stream (chunks : list (list byte)) : list jsstring :=
  let st := foldl read init chunks in
  enqueued st ++ flushBuffer (buffer st).

End Relay.

(* ===================================================================== *)
(** ** The consumer: [streamChat] of [lib/streamChat.ts] *)
(* ===================================================================== *)

Module Consumer.
Import Json.


Section StreamChat.
(** The caller's state, and its three handlers. A handler returns the
    new state, or [None] when it throws. A missing property reaches the
    handler as [None] ([undefined]). *)
Context {S : Type}.
Variable onToken : option value -> S -> option S.
Variable onTool : option value -> option value -> S -> option S.
Variable onDone : value -> S -> option S.

(** [parsed.type === l] on an object. *)
Definition literalType (ms : list (jsstring * value)) (l : jsstring) : bool :=
  match get (JS.lit "type") ms with
  | Some (JString s) => bool_decide (s = l)
  | _ => false
  end.

(** The chain of [if (parsed.type === ...)]. Reading a property of
    [null] throws; of a boolean, number, string or array it gives
    [undefined] for the names read here. *)
Definition dispatch (parsed : value) (s : S) : option S :=
  match parsed with
  | JNull => None
  | JObject ms =>
      if literalType ms (JS.lit "delta") then onToken (get (JS.lit "token") ms) s
      else if literalType ms (JS.lit "tool")
           then onTool (get (JS.lit "name") ms) (get (JS.lit "args") ms) s
      else if literalType ms (JS.lit "done") then onDone parsed s
      else Some s
  | _ => Some s
  end.

(** The body of [for (const part of parts)]. *)
Definition handlePart (part : jsstring) (s : S) : option S :=
  if negb (JS.truthy (JS.trim part)) then Some s
  else match parse part with
       | None => Some s
       | Some parsed => dispatch parsed s
       end.

(** The [for] loop: the parts in order, up to the first throw. *)
Fixpoint handleParts (parts : list jsstring) (s : S) : option S :=
  match parts with
  | [] => Some s
  | part :: parts' =>
      match handlePart part s with
      | Some s' => handleParts parts' s'
      | None => None
      end
  end.

Record state := mkState {
  decoder : Utf8.state;
  buffer : jsstring;
  caller : S
}.

(** One turn of [while (true)] on a chunk that was read. *)
Definition read (st : state) (value : list byte) : option state :=
  let '(dec, text) := Utf8.decode (decoder st) value in
  let '(parts, last) := JS.pop (JS.split 10 (buffer st ++ text)) in
  match handleParts parts (caller st) with
  | Some s' => Some (mkState dec (JS.orEmpty last) s')
  | None => None
  end.

Fixpoint reads (st : state) (chunks : list (list byte)) : option state :=
  match chunks with
  | [] => Some st
  | value :: chunks' =>
      match read st value with
      | Some st' => reads st' chunks'
      | None => None
      end
  end.

(** [streamChat] once the response is there: the caller's state when
    the promise resolves, [None] when it rejects. What is left in the
    buffer at the end is dropped. *)
Definition streamChat (chunks : list (list byte)) (s : S) : option S :=
  caller <$> reads (mkState Utf8.init [] s) chunks.

End StreamChat.

End Consumer.

(* ===================================================================== *)
(** ** The formula normalizer: [cleanLaTeX] of [lib/latex-cleaner.ts] *)
(* ===================================================================== *)

Module Latex.


(** The longest prefix of [s] whose code units satisfy [p], and the rest:
    what a greedy character class consumes. *)
Fixpoint run (p : N -> bool) (s : jsstring) : jsstring * jsstring :=
  match s with
  | [] => ([], [])
  | c :: s' => if p c then let '(a, r) := run p s' in (c :: a, r) else ([], s)
  end.

Section Replace.
(** [matchAt atStart s]: whether the pattern matches at the head of [s]
    ([atStart] tells that this head is the start of the whole text), and
    then the replacement and the number of code units matched, one or
    more. *)
Variable matchAt : bool -> jsstring -> option (jsstring * nat).

(** [s.replace(re, fn)] for a global pattern: matches are looked for
    from left to right, each after the end of the one before; [skip]
    counts the units of the current match still to pass. *)
Fixpoint replaceFrom (atStart : bool) (skip : nat) (s : jsstring) : jsstring :=
  match s with
  | [] => []
  | c :: s' =>
      match skip with
      | S k => replaceFrom false k s'
      | O =>
          match matchAt atStart s with
          | Some (rep, n) => rep ++ replaceFrom false (n - 1) s'
          | None => c :: replaceFrom false 0 s'
          end
      end
  end.

Definition replaceAll (s : jsstring) : jsstring := replaceFrom true 0 s.
End Replace.

(** Case-insensitive [startsWith] for a lower-case ASCII pattern: under
    the flag [i] a letter of the pattern matches its two ASCII cases and
    nothing else. *)
Fixpoint startsWithCI (p s : jsstring) : bool :=
  match p, s with
  | [], _ => true
  | _ :: _, [] => false
  | a :: p', b :: s' => (a =? JS.asciiLower b) && startsWithCI p' s'
  end.

(** [(assistant|Assistant):\s*] with flag [i] at the head of [s]: the
    number of units matched. *)
Definition matchRolePrefix (s : jsstring) : option nat :=
  if startsWithCI (JS.lit "assistant:") s
  then Some (10 + length (run JS.isWhiteSpace (drop 10 s)).1)%nat
  else None.

(** [s.replace(/^(assistant|Assistant):\s*/i, '')]. *)
Definition stripRolePrefix (s : jsstring) : jsstring :=
  match matchRolePrefix s with
  | Some n => drop n s
  | None => s
  end.

(** [/\n(assistant|Assistant):\s*/gi], replaced by a line feed. *)
Definition matchNewlinePrefix (atStart : bool) (s : jsstring) : option (jsstring * nat) :=
  match s with
  | c :: s' =>
      if c =? 10 then
        match matchRolePrefix s' with
        | Some n => Some ([10], S n)
        | None => None
        end
      else None
  | [] => None
  end.

(** The test [isDisplayMath] of step 0. *)
Definition isDisplayMath (trimmed : jsstring) : bool :=
  JS.includes (JS.lit "\frac") trimmed
  || JS.includes (JS.lit "\sum") trimmed
  || JS.includes (JS.lit "\bar") trimmed
  || JS.includes (JS.lit "\times") trimmed
  || JS.includes (JS.lit "\rightarrow") trimmed
  || JS.includes (JS.lit "\cdot") trimmed
  || JS.includes (JS.lit "=") trimmed && (15 <? length trimmed)%nat
  || JS.includes [10] trimmed
  || (40 <? length trimmed)%nat.

(** The callback of step 0 on the captured formula. *)
Definition convertFormula (formula : jsstring) : jsstring :=
  let trimmed := JS.trim formula in
  if isDisplayMath trimmed
  then JS.lit "$$" ++ trimmed ++ JS.lit "$$"
  else JS.lit "$" ++ trimmed ++ JS.lit "$".

Definition notGt (c : N) : bool := negb (c =? 62).
Definition notDollar (c : N) : bool := negb (c =? 36).

(** Step 0, [/<<<([^>]+)>>>/g]. *)
Definition matchFormula (atStart : bool) (s : jsstring) : option (jsstring * nat) :=
  if JS.startsWith (JS.lit "<<<") s then
    let '(formula, rest) := run notGt (drop 3 s) in
    if JS.truthy formula && JS.startsWith (JS.lit ">>>") rest
    then Some (convertFormula formula, (3 + length formula + 3)%nat)
    else None
  else None.

(** Step 2, pattern 1, [/\$\$([^$]+)\$(?!\$)/g]. *)
Definition matchDisplaySingle (atStart : bool) (s : jsstring) : option (jsstring * nat) :=
  if JS.startsWith (JS.lit "$$") s then
    let '(content, rest) := run notDollar (drop 2 s) in
    match rest with
    | d :: rest' =>
        if JS.truthy content && (d =? 36) && negb (JS.startsWith (JS.lit "$") rest')
        then Some (JS.lit "$$" ++ content ++ JS.lit "$$", (2 + length content + 1)%nat)
        else None
    | [] => None
    end
  else None.

(** Step 2, pattern 2, [/([^$]|^)\$([^$]+)\$\$/g]: [before] is one unit
    other than a dollar, or nothing at the start of the text. *)
Definition matchInlineDouble (atStart : bool) (s : jsstring) : option (jsstring * nat) :=
  let tail (before s1 : jsstring) :=
    match s1 with
    | d :: s2 =>
        let '(content, rest) := run notDollar s2 in
        if (d =? 36) && JS.truthy content && JS.startsWith (JS.lit "$$") rest
        then Some (before ++ JS.lit "$" ++ content ++ JS.lit "$",
                   (length before + 1 + length content + 2)%nat)
        else None
    | [] => None
    end in
  match s with
  | c :: s1 =>
      match (if notDollar c then tail [c] s1 else None) with
      | Some r => Some r
      | None => if atStart then tail [] s else None
      end
  | [] => None
  end.

(** Step 3, the pattern for a dollar nested in display math: two dollars,
    any units other than a dollar, one dollar, any units other than a
    dollar, two dollars. *)
Definition matchNested (atStart : bool) (s : jsstring) : option (jsstring * nat) :=
  if JS.startsWith (JS.lit "$$") s then
    let '(part1, r1) := run notDollar (drop 2 s) in
    match r1 with
    | d :: r2 =>
        let '(part2, r3) := run notDollar r2 in
        if (d =? 36) && JS.startsWith (JS.lit "$$") r3
        then Some (JS.lit "$$" ++ part1 ++ part2 ++ JS.lit "$$",
                   (2 + length part1 + 1 + length part2 + 2)%nat)
        else None
    | [] => None
    end
  else None.

(** Step 4, [/\$\$([a-z])\$\$/g]. *)
Definition matchSingleVariable (atStart : bool) (s : jsstring) : option (jsstring * nat) :=
  match s with
  | d1 :: d2 :: v :: d3 :: d4 :: _ =>
      if (d1 =? 36) && (d2 =? 36) && (97 <=? v) && (v <=? 122) && (d3 =? 36) && (d4 =? 36)
      then Some ([36; v; 36], 5%nat)
      else None
  | _ => None
  end.

(** The look-ahead [(?=\s|$|[.,;:!?\)\]\}])] on the next unit. *)
Definition isBoundary (c : N) : bool :=
  JS.isWhiteSpace c
  || bool_decide (c ∈ JS.lit ".,;:!?)]}").

Definition isContent (c : N) : bool := negb (c =? 36) && negb (c =? 10).

(** After one unit of content: how many more the lazy [+?] takes before
    the look-ahead holds; [None] when it never does. *)
Fixpoint contentEnd (r : jsstring) : option nat :=
  match r with
  | [] => Some 0%nat
  | d :: r' =>
      if isBoundary d then Some 0%nat
      else if isContent d then S <$> contentEnd r'
      else None
  end.

(** [afterDollar.match(/^([^$\n]+?)(?=\s|$|[.,;:!?\)\]\}])/)]: the group
    captured. *)
Definition contentMatch (afterDollar : jsstring) : option jsstring :=
  match afterDollar with
  | c :: r =>
      if isContent c then (fun n => take (S n) afterDollar) <$> contentEnd r
      else None
  | [] => None
  end.

(** Step 2, pattern 3: the [while (true)] loop that closes a [$$] left
    open. [None] when the fuel runs out before the loop breaks. *)
Fixpoint closeLoop (fuel : nat) (cleaned : jsstring) (searchFrom : nat) : option jsstring :=
  match fuel with
  | O => None
  | S fuel =>
      match JS.indexOfFrom (JS.lit "$$") cleaned searchFrom with
      | None => Some cleaned
      | Some dollarIndex =>
          let afterDollar := JS.substringFrom (dollarIndex + 2) cleaned in
          if JS.startsWith (JS.lit "$$") afterDollar
          then closeLoop fuel cleaned (dollarIndex + 4)
          else
            match JS.indexOf (JS.lit "$") afterDollar with
            | None =>
                match contentMatch afterDollar with
                | Some content =>
                    let insertPos := (dollarIndex + 2 + length content)%nat in
                    closeLoop fuel
                      (JS.substring 0 insertPos cleaned ++ JS.lit "$$"
                       ++ JS.substringFrom insertPos cleaned)
                      (insertPos + 2)
                | None => Some (cleaned ++ JS.lit "$$")
                end
            | Some nextDollar =>
                let followedByDollar :=
                  match afterDollar !! (nextDollar + 1)%nat with
                  | Some d => d =? 36
                  | None => false
                  end in
                if (0 <? nextDollar)%nat
                   && (nextDollar <? length afterDollar - 1)%nat
                   && negb followedByDollar
                then closeLoop fuel cleaned (dollarIndex + 2 + nextDollar + 1)
                else if (nextDollar <? length afterDollar - 1)%nat && followedByDollar
                then closeLoop fuel cleaned (dollarIndex + 2 + nextDollar + 2)
                else closeLoop fuel cleaned (dollarIndex + 2)
            end
      end
  end.

(** The loop started at [searchFrom = 0]; its fuel is enough
    ([closeLoop_total] below), so the default is never taken. *)
Definition closeUnclosed (cleaned : jsstring) : jsstring :=
  default cleaned (closeLoop (S (length cleaned)) cleaned 0).

(** Step 0 alone. *)
Definition convertDelimiters (content : jsstring) : jsstring :=
  replaceAll matchFormula content.

Definition cleanLaTeX (content : jsstring) : jsstring :=
  let cleaned := convertDelimiters content in
  let cleaned := stripRolePrefix cleaned in
  let cleaned := replaceAll matchNewlinePrefix cleaned in
  let cleaned := replaceAll matchDisplaySingle cleaned in
  let cleaned := replaceAll matchInlineDouble cleaned in
  let cleaned := closeUnclosed cleaned in
  let cleaned := replaceAll matchNested cleaned in
  let cleaned := replaceAll matchSingleVariable cleaned in
  JS.trim cleaned.

End Latex.

(* ===================================================================== *)
(** ** The chat page: [app/chat/[sessionId]/page.tsx] *)
(* ===================================================================== *)

Module Page.
Import Json.

(** ** [calculateSimilarity] *)

Section Similarity.
(** [String.prototype.toLowerCase]. Its Unicode case tables are no part
    of the program; what follows holds for any such function. *)
Variable toLowerCase : jsstring -> jsstring.

(** [s.toLowerCase().replace(/\s+/g, ' ')]. *)
Definition normalize (s : jsstring) : jsstring :=
  JS.collapseWhitespace (toLowerCase s).

(** [normalized.split(/\s+/).filter(w => w.length > 3)]. *)
Definition words (normalized : jsstring) : list jsstring :=
  filter (fun w => (3 < length w)%nat) (JS.splitWhitespace normalized).

(** [words1.filter(w => words2.includes(w))]. *)
Definition commonWords (words1 words2 : list jsstring) : list jsstring :=
  filter (fun w => w ∈ words2) words1.

(** The number returned is the quotient of two array lengths (or one of
    the constants 1.0, 0.9 and 0) and is kept as a rational. *)
Definition calculateSimilarity (str1 str2 : jsstring) : Q :=
  let longer := if (length str2 <? length str1)%nat then str1 else str2 in
  let shorter := if (length str2 <? length str1)%nat then str2 else str1 in
  if (length longer =? 0)%nat then 1%Q
  else
    let longerNormalized := normalize longer in
    let shorterNormalized := normalize shorter in
    if JS.includes shorterNormalized longerNormalized
       || JS.includes (JS.substring 0 (length shorterNormalized) longerNormalized)
                      shorterNormalized
    then (9 # 10)%Q
    else
      let words1 := words longerNormalized in
      let words2 := words shorterNormalized in
      if (length words1 =? 0)%nat || (length words2 =? 0)%nat then 0%Q
      else
        (Z.of_nat (length (commonWords words1 words2) * 2)
         # Pos.of_nat (length words1 + length words2))%Q.

(** ** The duplicate detector of [onDone] *)

(** The key under which a section is remembered:
    [section.trim().toLowerCase().substring(0, 150).replace(/\s+/g, ' ')]. *)
Definition normalized (section : jsstring) : jsstring :=
  JS.collapseWhitespace (JS.substring 0 150 (toLowerCase (JS.trim section))).

(** The body of [sections.forEach]: [seen] counts the occurrences of
    each key, [uniqueSections] collects the first ones. *)
Definition visit (st : gmap jsstring nat * list jsstring) (section : jsstring)
  : gmap jsstring nat * list jsstring :=
  let '(seen, uniqueSections) := st in
  let key := normalized section in
  let count := default 0%nat (seen !! key) in
  if (count =? 0)%nat
  then (<[key := 1%nat]> seen, uniqueSections ++ [section])
  else (<[key := (count + 1)%nat]> seen, uniqueSections).

Definition uniqueSections (sections : list jsstring) : list jsstring :=
  (foldl visit (∅, []) sections).2.

(** [content.split(/\n{2,}/).filter(s => s.trim())]. *)
Definition sectionsOf (content : jsstring) : list jsstring :=
  filter (fun s => JS.trim s ≠ []) (JS.splitBlankLines content).

(** The paragraph check: the value of [content] after it. *)
Definition dedupeParagraphs (content : jsstring) : jsstring :=
  let sections := sectionsOf content in
  if (1 <? length sections)%nat then
    let unique := uniqueSections sections in
    if (length unique <? length sections)%nat
    then JS.join [10; 10] unique
    else content
  else content.

Definition firstHalf (content : jsstring) : jsstring :=
  JS.trim (JS.substring 0 (length content / 2) content).

Definition secondHalf (content : jsstring) : jsstring :=
  JS.trim (JS.substringFrom (length content / 2) content).

(** The test of the halves check: both halves longer than 100 and
    their similarity above 0.8. *)
Definition halvesDuplicated (content : jsstring) : bool :=
  (100 <? length (firstHalf content))%nat
  && (100 <? length (secondHalf content))%nat
  && negb (Qle_bool (calculateSimilarity (firstHalf content) (secondHalf content))
                    (8 # 10)).

(** The duplicate detector: the value of [content] handed to
    [cleanLaTeX] on either path of [onDone], for the trimmed message. *)
Definition deduplicate (content : jsstring) : jsstring :=
  if halvesDuplicated content then firstHalf content
  else dedupeParagraphs content.

(** [onDone] on the content of the last message: the argument of
    [updateLastMessage], or [None] when the content is empty and the
    message is left alone. *)
Definition onDone (lastContent : jsstring) : option jsstring :=
  if JS.truthy lastContent
  then Some (Latex.cleanLaTeX (deduplicate (JS.trim lastContent)))
  else None.
End Similarity.

(** ** The token handler of [handleSendMessage] *)

(** The flag [firstToken] and the content of the last message of the
    session, which [updateLastMessage] replaces and [updateMessageChunk]
    extends. *)
Record state := mkState {
  firstToken : bool;
  content : jsstring
}.

(** The waiting message is the last one when the stream starts. *)
Definition waiting : state :=
  mkState true (JS.lit "Please wait, I am cooking...").

Definition updateLastMessage (c : jsstring) (st : state) : state :=
  mkState (firstToken st) c.

Definition updateMessageChunk (token : jsstring) (st : state) : state :=
  mkState (firstToken st) (content st ++ token).

(** [onToken]: [token.replace] throws unless the token is a string. *)
Definition onToken (token : option value) (st : state) : option state :=
  match token with
  | Some (JString token) =>
      let cleanedToken := Latex.stripRolePrefix token in
      if firstToken st
      then let st' := updateLastMessage cleanedToken st in
           Some (mkState false (content st'))
      else Some (updateMessageChunk cleanedToken st)
  | _ => None
  end.

End Page.

(* ===================================================================== *)
(** ** Notions used to state the properties *)
(* ===================================================================== *)

Module Notions.
Import JS Json Schema.

(** A text of white space only. *)
Definition blank (s : jsstring) : Prop := Forall (fun c => isWhiteSpace c = true) s.

(** A text that starts and ends with something else than white space. *)
Definition tight (s : jsstring) : Prop :=
  exists a m z, isWhiteSpace a = false /\ isWhiteSpace z = false /\
                (s = [a] \/ s = a :: m ++ [z]).

(** The loop variables of the relay once the decoder, now in state [dec],
    has made [text] of the chunks read from state [st]. *)
Definition after (st : Relay.state) (text : jsstring) (dec : Utf8.state) : Relay.state :=
  Relay.mkState dec
    (orEmpty (last (split 10 (Relay.buffer st ++ text))))
    (Relay.enqueued st
     ++ flat_map Relay.forwardLine (removelast (split 10 (Relay.buffer st ++ text)))).

(** The line the relay puts out for an event that fails validation. *)
Definition validationErrorLine : jsstring :=
  jsonlit "{'type':'error','message':'Invalid event format from backend','code':'validation_error'}"
  ++ [10].

(** The line of a tool event. *)
Definition toolLine : jsstring :=
  jsonlit "{'type':'tool','name':'generateFlashcards','args':{'topic':'limits'}}".

(** The line of a delta event that lacks its token. *)
Definition deltaWithoutToken : jsstring := jsonlit "{'type':'delta'}".

(** The longer of the two arguments, as [calculateSimilarity] picks it. *)
Definition longerOf (str1 str2 : jsstring) : jsstring :=
  if (length str2 <? length str1)%nat then str1 else str2.

(** [part] is the line of a delta event whose fragment is [token]. *)
Definition isDelta (part token : jsstring) : Prop :=
  exists ms, parse part = Some (JObject ms)
             /\ get (lit "type") ms = Some (JString (lit "delta"))
             /\ get (lit "token") ms = Some (JString token).

(** The message once the fragments [tokens] have gone through [onToken]:
    the first fragment replaces what was there while [firstToken] holds. *)
Definition received (st : Page.state) (tokens : list jsstring) : Page.state :=
  match tokens with
  | [] => st
  | _ =>
      Page.mkState false
        ((if Page.firstToken st then [] else Page.content st)
         ++ concat (Latex.stripRolePrefix <$> tokens))
  end.

(** Stand-ins for the handlers that a stream of deltas never calls. *)
Definition noTool (name args : option value) (st : Page.state) : option Page.state :=
  Some st.
Definition noDone (data : value) (st : Page.state) : option Page.state := Some st.

(** Two delta lines; the second fragment starts with the role prefix. *)
Definition twoDeltas : jsstring :=
  jsonlit "{'type':'delta','token':'Hi '}" ++ [10]
  ++ jsonlit "{'type':'delta','token':'assistant: there'}" ++ [10].

(** The key of a section in the words of the specification: lower case,
    white space collapsed, and of that the first 150 code units. *)
Definition signatureAsStated (toLowerCase : jsstring -> jsstring) (section : jsstring)
  : jsstring :=
  take 150 (collapseWhitespace (toLowerCase section)).

(** Two sections that differ after a long run of spaces. *)
Definition sectionB : jsstring := lit "a" ++ replicate 149 32 ++ lit "b".
Definition sectionC : jsstring := lit "a" ++ replicate 149 32 ++ lit "c".

(** 101 code units, 100 of them after trimming. *)
Definition paddedA : jsstring := 32 :: replicate 100 120.

(** 101 code units and no white space. *)
Definition plainA : jsstring := replicate 101 120.

(** The line of the synthetic error event, and a delta line. *)
Definition errorLine : jsstring :=
  jsonlit "{'type':'error','message':'Invalid event format from backend','code':'validation_error'}".
Definition helloLine : jsstring := jsonlit "{'type':'delta','token':'Hello'}".

(** The formula of a span wrapped as step 0 wraps it, spelled out. *)
Definition wrapped (formula : jsstring) : jsstring :=
  let t := trim formula in
  if Latex.isDisplayMath t then [36; 36] ++ t ++ [36; 36] else [36] ++ t ++ [36].

(** The conditions of [isDisplayMath], as a proposition. *)
Definition displayCriterion (t : jsstring) : Prop :=
  includes (lit "\frac") t = true
  \/ includes (lit "\sum") t = true
  \/ includes (lit "\bar") t = true
  \/ includes (lit "\times") t = true
  \/ includes (lit "\rightarrow") t = true
  \/ includes (lit "\cdot") t = true
  \/ (includes (lit "=") t = true /\ (15 < length t)%nat)
  \/ includes [10] t = true
  \/ (40 < length t)%nat.

(** Whether the role prefix, in any case, starts somewhere in [s]. *)
Fixpoint mentionsRole (s : jsstring) : bool :=
  Latex.startsWithCI (lit "assistant:") s
  || match s with
     | [] => false
     | _ :: s' => mentionsRole s'
     end.

(** A parser that returns less text than it was given. *)
Definition consumes {A} (p : jsstring -> option (A * jsstring)) : Prop :=
  forall s x r, p s = Some (x, r) -> (length r < length s)%nat.

End Notions.

(* ===================================================================== *)
(** * Properties *)
(* ===================================================================== *)

Module JSFacts.
Import JS Notions.

Lemma split_nonempty sep s : split sep s ≠ [].
Proof. destruct s as [|c s]; simpl; [done|]. destruct (c =? sep); [done|]. by destruct (split sep s). Qed.

Lemma last_cons_ne {A} (x : A) (b : list A) : b ≠ [] -> last (x :: b) = last b.
Proof. by destruct b. Qed.

Lemma removelast_cons_ne {A} (x : A) (b : list A) :
  b ≠ [] -> removelast (x :: b) = x :: removelast b.
Proof. by destruct b. Qed.

Lemma last_app_ne {A} (a b : list A) : b ≠ [] -> last (a ++ b) = last b.
Proof.
  intros Hb. rewrite last_app. destruct (last b) eqn:E; [done|].
  by apply last_None in E.
Qed.

(** Splitting a text in two does not change its lines: the last piece of the
    first part is continued by the second part. *)
Lemma split_app sep a b :
  split sep (a ++ b) =
  removelast (split sep a) ++ split sep (orEmpty (last (split sep a)) ++ b).
Proof.
  induction a as [|c a IH]; [done|].
  pose proof (split_nonempty sep a) as Hne.
  cbn [split app]. destruct (c =? sep) eqn:Hc.
  - rewrite removelast_cons_ne, last_cons_ne by apply split_nonempty. by rewrite IH.
  - rewrite IH. destruct (split sep a) as [|l [|l' ls']] eqn:Hs; [done| |].
    + cbn. by rewrite Hc.
    + rewrite !last_cons_ne by done.
      rewrite (removelast_cons_ne l) by done.
      rewrite (removelast_cons_ne (c :: l)) by done. done.
Qed.

(** The piece kept in the buffer holds no separator. *)
Lemma split_last_line sep s l :
  last (split sep s) = Some l -> split sep l = [l].
Proof.
  revert l. induction s as [|c s IH]; intros l.
  - by intros [= <-].
  - pose proof (split_nonempty sep s) as Hne.
    cbn [split]. destruct (c =? sep) eqn:Hc.
    + rewrite last_cons_ne by done. apply IH.
    + destruct (split sep s) as [|l0 [|l' ls']] eqn:Hs; [done| |].
      * intros [= <-]. cbn [split]. rewrite Hc. by rewrite (IH l0 eq_refl).
      * rewrite last_cons_ne by done. apply IH.
Qed.

Lemma split_last_some sep s : is_Some (last (split sep s)).
Proof.
  destruct (last (split sep s)) eqn:E; [eauto|].
  apply last_None in E. by destruct (split_nonempty sep s).
Qed.

(** *** [trim] *)

Lemma trimStart_blank l s : blank l -> trimStart (l ++ s) = trimStart s.
Proof. induction 1 as [|c l Hc _ IH]; [done|]. cbn. by rewrite Hc. Qed.

Lemma trimStart_blank_nil l : blank l -> trimStart l = [].
Proof. intros H. rewrite <- (app_nil_r l). by rewrite trimStart_blank. Qed.

Lemma trimStart_head c s : isWhiteSpace c = false -> trimStart (c :: s) = c :: s.
Proof. intros H. cbn. by rewrite H. Qed.

Lemma trimStart_nil_blank s : trimStart s = [] -> blank s.
Proof.
  induction s as [|c s IH]; [constructor|].
  cbn. destruct (isWhiteSpace c) eqn:Hc; [|done].
  intros H. constructor; [done | by apply IH].
Qed.

Lemma blank_reverse s : blank s -> blank (reverse s).
Proof. unfold blank. rewrite !Forall_forall. intros H x Hx. apply H. by apply elem_of_reverse. Qed.

Lemma trimEnd_blank s r : blank r -> trimEnd (s ++ r) = trimEnd s.
Proof.
  intros H. unfold trimEnd. rewrite reverse_app.
  rewrite trimStart_blank; [done|]. by apply blank_reverse.
Qed.

Lemma trimEnd_last s c : isWhiteSpace c = false -> trimEnd (s ++ [c]) = s ++ [c].
Proof.
  intros H. unfold trimEnd. rewrite reverse_app. cbn [reverse app].
  rewrite reverse_singleton. cbn [app]. rewrite trimStart_head by done.
  by rewrite reverse_cons, reverse_involutive.
Qed.

Lemma trimEnd_nil : trimEnd [] = [].
Proof. done. Qed.

Lemma tight_head s : tight s -> exists a s', s = a :: s' /\ isWhiteSpace a = false.
Proof. intros (a & m & z & Ha & _ & [-> | ->]); eauto. Qed.

Lemma tight_last s : tight s -> exists s' z, s = s' ++ [z] /\ isWhiteSpace z = false.
Proof.
  intros (a & m & z & Ha & Hz & [-> | ->]).
  - by exists [], a.
  - by exists (a :: m), z.
Qed.

Lemma trim_tight s : tight s -> trim s = s.
Proof.
  intros H. unfold trim.
  destruct (tight_head s H) as (a & s' & -> & Ha). rewrite trimStart_head by done.
  destruct (tight_last _ H) as (s'' & z & -> & Hz). by apply trimEnd_last.
Qed.

Lemma trim_blank s : blank s -> trim s = [].
Proof. intros H. unfold trim. by rewrite trimStart_blank_nil. Qed.

(** Every text is white space, a core, and white space; [trim] returns the
    core, which is empty or tight. *)
Lemma trimEnd_split s :
  exists r, blank r /\ s = trimEnd s ++ r /\ (trimEnd s = [] \/
    exists s' z, trimEnd s = s' ++ [z] /\ isWhiteSpace z = false).
Proof.
  induction s as [|c s IH] using rev_ind.
  - exists []. repeat split; [constructor|by left].
  - destruct (isWhiteSpace c) eqn:Hc.
    + destruct IH as (r & Hr & Hs & Ht). exists (r ++ [c]).
      assert (blank [c]) by (by repeat constructor).
      rewrite trimEnd_blank by done. split; [by apply Forall_app|].
      split; [|done]. rewrite app_assoc. by rewrite <- Hs.
    + exists []. rewrite trimEnd_last by done. split; [constructor|].
      split; [by rewrite app_nil_r|]. right. eauto.
Qed.

Lemma trimStart_split s :
  exists l, blank l /\ s = l ++ trimStart s /\ (trimStart s = [] \/
    exists a s', trimStart s = a :: s' /\ isWhiteSpace a = false).
Proof.
  induction s as [|c s IH].
  - exists []. repeat split; [constructor|by left].
  - cbn. destruct (isWhiteSpace c) eqn:Hc.
    + destruct IH as (l & Hl & Hs & Ht). exists (c :: l).
      split; [by constructor|]. split; [|done]. cbn. by rewrite <- Hs.
    + exists []. split; [constructor|]. split; [done|]. right. eauto.
Qed.

Lemma trim_split s :
  exists l r, blank l /\ blank r /\ s = l ++ trim s ++ r /\ (trim s = [] \/ tight (trim s)).
Proof.
  destruct (trimStart_split s) as (l & Hl & Hs & Hhead).
  destruct (trimEnd_split (trimStart s)) as (r & Hr & Hs' & Hlast).
  exists l, r. unfold trim. split; [done|]. split; [done|]. split.
  { rewrite <- Hs'. done. }
  destruct Hlast as [?|(s' & z & Hz & Hzw)]; [by left|right].
  destruct Hhead as [Hnil|(a & t & Ha & Haw)].
  { rewrite Hnil in Hz. cbn in Hz. by destruct s'. }
  rewrite Hz. rewrite Hz in Hs'. rewrite Ha in Hs'.
  destruct s' as [|b s'].
  - exists z, [], z. split; [done|]. split; [done|]. by left.
  - cbn in Hs'. injection Hs' as <- _. exists a, s', z. eauto.
Qed.

Lemma trim_nil_blank s : trim s = [] -> blank s.
Proof.
  intros H. destruct (trim_split s) as (l & r & Hl & Hr & Hs & _).
  rewrite H in Hs. rewrite Hs. cbn. by apply Forall_app.
Qed.

Lemma trim_pad l s r : blank l -> blank r -> tight s -> trim (l ++ s ++ r) = s.
Proof.
  intros Hl Hr Hs. unfold trim. rewrite trimStart_blank by done.
  destruct (tight_head s Hs) as (a & s' & -> & Ha).
  cbn [app]. rewrite trimStart_head by done.
  change (a :: s' ++ r) with ((a :: s') ++ r). rewrite trimEnd_blank by done.
  apply (trim_tight (a :: s')) in Hs. unfold trim in Hs.
  by rewrite trimStart_head in Hs.
Qed.

Lemma trim_idemp s : trim (trim s) = trim s.
Proof.
  destruct (trim_split s) as (_ & _ & _ & _ & _ & [->|H]); [done|by apply trim_tight].
Qed.

Lemma truthy_trim_elem c s :
  c ∈ s -> isWhiteSpace c = false -> truthy (trim s) = true.
Proof.
  intros Hin Hc. destruct (trim s) eqn:E; [|done].
  apply trim_nil_blank in E. unfold blank in E. rewrite Forall_forall in E.
  specialize (E c Hin). congruence.
Qed.

End JSFacts.

Module Utf8Facts.
Import Utf8.

(** The decoder reads byte by byte: decoding a chunk in two parts gives the
    texts of the parts one after the other. *)
Lemma decode_app st a b :
  decode st (a ++ b) =
  ((decode (decode st a).1 b).1, (decode st a).2 ++ (decode (decode st a).1 b).2).
Proof.
  revert st. induction a as [|x a IH]; intros st.
  - cbn. by destruct (decode st b).
  - cbn [decode app]. destruct (step st x) as [st1 t1].
    rewrite IH. destruct (decode st1 a) as [st2 t2]. cbn.
    destruct (decode st2 b) as [st3 t3]. cbn. by rewrite app_assoc.
Qed.

End Utf8Facts.

Module JsonFacts.
Import Json Notions JSFacts.

Lemma isWhiteSpace_true c :
  JS.isWhiteSpace c = true -> 9 <= c <= 13 \/ c = 32 \/ 160 <= c.
Proof.
  unfold JS.isWhiteSpace.
  rewrite !orb_true_iff, !andb_true_iff, !N.leb_le, !N.eqb_eq. lia.
Qed.

Lemma isWhiteSpace_false c :
  (14 <= c <= 31 \/ 33 <= c <= 159) -> JS.isWhiteSpace c = false.
Proof.
  intros H. destruct (JS.isWhiteSpace c) eqn:E; [|done].
  apply isWhiteSpace_true in E. lia.
Qed.

Lemma skipWs_elem s c r : skipWs s = c :: r -> c ∈ s.
Proof.
  induction s as [|d s IH]; [done|]. cbn.
  destruct (isWs d).
  - intros H. right. by apply IH.
  - intros [= -> _]. left.
Qed.

Lemma startsWith_head p0 p c s : JS.startsWith (p0 :: p) (c :: s) = true -> c = p0.
Proof. cbn. rewrite andb_true_iff, N.eqb_eq. by intros [-> _]. Qed.

Lemma parseNumber_head c s n r :
  parseNumber (c :: s) = Some (n, r) -> c = 45 \/ isDigit c = true.
Proof.
  unfold parseNumber. destruct (c =? 45) eqn:Hc.
  - apply N.eqb_eq in Hc. by left.
  - cbn [digits]. destruct (isDigit c); [by right|]. done.
Qed.

(** A value starts with something else than white space. *)
Lemma parseValue_head fuel s v r :
  parseValue fuel s = Some (v, r) ->
  exists c r0, skipWs s = c :: r0 /\ JS.isWhiteSpace c = false.
Proof.
  destruct fuel as [|fuel]; [done|]. cbn [parseValue]. unfold valueStep.
  destruct (skipWs s) as [|c r0]; [done|]. intros H.
  exists c, r0. split; [done|]. apply isWhiteSpace_false.
  destruct (c =? 123) eqn:E1; [apply N.eqb_eq in E1; lia|].
  destruct (c =? 91) eqn:E2; [apply N.eqb_eq in E2; lia|].
  destruct (c =? 34) eqn:E3; [apply N.eqb_eq in E3; lia|].
  destruct (JS.startsWith (JS.lit "true") (c :: r0)) eqn:E4.
  { apply startsWith_head in E4. vm_compute in E4. lia. }
  destruct (JS.startsWith (JS.lit "false") (c :: r0)) eqn:E5.
  { apply startsWith_head in E5. vm_compute in E5. lia. }
  destruct (JS.startsWith (JS.lit "null") (c :: r0)) eqn:E6.
  { apply startsWith_head in E6. vm_compute in E6. lia. }
  destruct (parseNumber (c :: r0)) as [[n r']|] eqn:E7; [|done].
  apply parseNumber_head in E7 as [->|Hd]; [lia|].
  unfold isDigit in Hd. rewrite andb_true_iff, !N.leb_le in Hd. lia.
Qed.

(** What [JSON.parse] accepts is not blank: the test [if (!line.trim())]
    lets it through. *)
Lemma parse_truthy text v : parse text = Some v -> JS.truthy (JS.trim text) = true.
Proof.
  unfold parse.
  destruct (parseValue _ text) as [[v' r]|] eqn:E; [|done]. intros _.
  apply parseValue_head in E as (c & r0 & Hs & Hc).
  apply skipWs_elem in Hs. by eapply truthy_trim_elem.
Qed.

(** *** The fuel of the parser *)

Lemma skipWs_length s : (length (skipWs s) <= length s)%nat.
Proof.
  induction s as [|c s IH]; [done|]. cbn. destruct (isWs c); cbn; lia.
Qed.

Lemma skipWs_cons s c r : skipWs s = c :: r -> (length r < length s)%nat.
Proof. intros H. pose proof (skipWs_length s) as Hl. rewrite H in Hl. cbn in Hl. lia. Qed.

Lemma parseChars_consumes : consumes parseChars.
Proof.
  intros s. induction s as [s IH] using (induction_ltof1 _ (@length N)).
  unfold ltof in IH. intros t r. destruct s as [|c s']; [done|]. cbn [parseChars].
  destruct (c =? 34); [intros [= _ <-]; cbn; lia|].
  destruct (c <? 32); [done|].
  destruct (c =? 92).
  - destruct s' as [|e s'']; [done|].
    assert (Hsimple : forall u,
      match parseChars s'' with
      | Some (t0, r0) => Some (u :: t0, r0)
      | None => None
      end = Some (t, r) -> (length r < length (c :: e :: s''))%nat).
    { intros u. destruct (parseChars s'') as [[t0 r0]|] eqn:E; [|done].
      intros [= _ <-]. apply IH in E; cbn in *; lia. }
    repeat (match goal with |- context [if ?b then _ else _] => destruct b end;
            [try apply Hsimple|]); try done.
    destruct s'' as [|h1 [|h2 [|h3 [|h4 s5]]]]; try done.
    destruct (hexValue h1), (hexValue h2), (hexValue h3), (hexValue h4); try done.
    destruct (parseChars s5) as [[t0 r0]|] eqn:E; [|done].
    intros [= _ <-]. apply IH in E; cbn in *; lia.
  - destruct (parseChars s') as [[t0 r0]|] eqn:E; [|done].
    intros [= _ <-]. apply IH in E; cbn in *; lia.
Qed.

Lemma digits_length s : (length (digits s).2 <= length s)%nat.
Proof.
  induction s as [|c s IH]; [done|]. cbn. destruct (isDigit c); [|done].
  destruct (digits s) as [d r]. cbn in *. lia.
Qed.

Lemma digits_cons s d ds r :
  digits s = (d :: ds, r) -> (length r < length s)%nat.
Proof.
  destruct s as [|c s]; [done|]. cbn. destruct (isDigit c); [|done].
  pose proof (digits_length s) as H. destruct (digits s) as [d0 r0].
  intros [= _ _ <-]. cbn in *. lia.
Qed.

Lemma parseNumber_consumes : consumes parseNumber.
Proof.
  intros s n r. unfold parseNumber.
  set (p := match s with
            | [] => ([], s)
            | c :: s' => if c =? 45 then ([c], s') else ([], s)
            end).
  assert (Hp : (length p.2 <= length s)%nat).
  { unfold p. destruct s as [|c s']; [done|]. destruct (c =? 45); cbn; lia. }
  destruct p as [sign s1]. cbn [snd] in Hp.
  destruct (digits s1) as [int s2] eqn:Hint.
  destruct int as [|d int']; [done|].
  apply digits_cons in Hint.
  destruct ((d =? 48) && JS.truthy int'); [done|].
  set (frac := match s2 with
               | [] => Some ([], s2)
               | c :: s' =>
                   if c =? 46
                   then let '(f, r0) := digits s' in
                        match f with [] => None | _ :: _ => Some (c :: f, r0) end
                   else Some ([], s2)
               end).
  assert (Hfrac : forall f s3, frac = Some (f, s3) -> (length s3 <= length s2)%nat).
  { unfold frac. intros f s3. destruct s2 as [|c s']; [by intros [= _ <-]|].
    destruct (c =? 46); [|by intros [= _ <-]].
    pose proof (digits_length s') as H. destruct (digits s') as [f0 r0].
    destruct f0; [done|]. intros [= _ <-]. cbn in *. lia. }
  destruct frac as [[f s3]|]; [|done]. specialize (Hfrac f s3 eq_refl).
  set (expo := match s3 with
               | [] => Some ([], s3)
               | c :: s' =>
                   if (c =? 101) || (c =? 69)
                   then let '(sg, s'') :=
                          match s' with
                          | [] => ([], s')
                          | g :: t => if (g =? 43) || (g =? 45) then ([g], t) else ([], s')
                          end in
                        let '(e, r0) := digits s'' in
                        match e with [] => None | _ :: _ => Some (c :: sg ++ e, r0) end
                   else Some ([], s3)
               end).
  assert (Hexpo : forall e s4, expo = Some (e, s4) -> (length s4 <= length s3)%nat).
  { unfold expo. intros e s4. destruct s3 as [|c s']; [by intros [= _ <-]|].
    destruct ((c =? 101) || (c =? 69)); [|by intros [= _ <-]].
    set (q := match s' with
              | [] => ([], s')
              | g :: t => if (g =? 43) || (g =? 45) then ([g], t) else ([], s')
              end).
    assert (Hq : (length q.2 <= length s')%nat).
    { unfold q. destruct s' as [|g t]; [done|].
      destruct ((g =? 43) || (g =? 45)); cbn; lia. }
    destruct q as [sg s'']. cbn [snd] in Hq.
    pose proof (digits_length s'') as H. destruct (digits s'') as [e0 r0].
    destruct e0; [done|]. intros [= _ <-]. cbn in *. lia. }
  destruct expo as [[e s4]|]; [|done]. specialize (Hexpo e s4 eq_refl).
  intros [= _ <-]. lia.
Qed.

Section Steps.
Variable value' value'' : jsstring -> option (value * jsstring).
Variable elements elements' : jsstring -> option (list value * jsstring).
Variable members members' : jsstring -> option (list (jsstring * value) * jsstring).

Lemma valueStep_consumes :
  consumes members -> consumes elements -> consumes (valueStep members elements).
Proof.
  intros Hm He s v r. unfold valueStep.
  destruct (skipWs s) as [|c r0] eqn:Hs; [done|].
  pose proof (skipWs_cons _ _ _ Hs) as Hr0.
  assert (Hs0 : (length (c :: r0) <= length s)%nat) by (cbn; lia).
  destruct (c =? 123).
  { destruct (skipWs r0) as [|c' r'] eqn:Hs'; [done|].
    apply skipWs_cons in Hs'. destruct (c' =? 125); [intros [= _ <-]; lia|].
    destruct (members r0) as [[ms r'']|] eqn:E; [|done].
    intros [= _ <-]. apply Hm in E. lia. }
  destruct (c =? 91).
  { destruct (skipWs r0) as [|c' r'] eqn:Hs'; [done|].
    apply skipWs_cons in Hs'. destruct (c' =? 93); [intros [= _ <-]; lia|].
    destruct (elements r0) as [[vs r'']|] eqn:E; [|done].
    intros [= _ <-]. apply He in E. lia. }
  destruct (c =? 34).
  { destruct (parseChars r0) as [[t r']|] eqn:E; [|done].
    intros [= _ <-]. apply parseChars_consumes in E. lia. }
  destruct (JS.startsWith _ _).
  { intros [= _ <-]. cbn. pose proof (length_drop r0 3). lia. }
  destruct (JS.startsWith _ _).
  { intros [= _ <-]. cbn. pose proof (length_drop r0 4). lia. }
  destruct (JS.startsWith _ _).
  { intros [= _ <-]. cbn. pose proof (length_drop r0 3). lia. }
  destruct (parseNumber (c :: r0)) as [[n r']|] eqn:E; [|done].
  intros [= _ <-]. apply parseNumber_consumes in E. lia.
Qed.

Lemma elementsStep_consumes :
  consumes value' -> consumes elements -> consumes (elementsStep value' elements).
Proof.
  intros Hv He s vs r. unfold elementsStep.
  destruct (value' s) as [[v r0]|] eqn:E; [|done]. apply Hv in E.
  destruct (skipWs r0) as [|c r'] eqn:Hs; [done|]. apply skipWs_cons in Hs.
  destruct (c =? 44).
  { destruct (elements r') as [[vs' r'']|] eqn:E'; [|done].
    intros [= _ <-]. apply He in E'. lia. }
  destruct (c =? 93); [|done]. intros [= _ <-]. lia.
Qed.

Lemma membersStep_consumes :
  consumes value' -> consumes members -> consumes (membersStep value' members).
Proof.
  intros Hv Hm s ms r. unfold membersStep.
  destruct (skipWs s) as [|q r0] eqn:Hs; [done|]. apply skipWs_cons in Hs.
  destruct (q =? 34); [|done].
  destruct (parseChars r0) as [[k r1]|] eqn:E; [|done]. apply parseChars_consumes in E.
  destruct (skipWs r1) as [|c r2] eqn:Hs1; [done|]. apply skipWs_cons in Hs1.
  destruct (c =? 58); [|done].
  destruct (value' r2) as [[v r3]|] eqn:Ev; [|done]. apply Hv in Ev.
  destruct (skipWs r3) as [|c' r4] eqn:Hs3; [done|]. apply skipWs_cons in Hs3.
  destruct (c' =? 44).
  { destruct (members r4) as [[ms' r5]|] eqn:Em; [|done].
    intros [= _ <-]. apply Hm in Em. lia. }
  destruct (c' =? 125); [|done]. intros [= _ <-]. lia.
Qed.

(** A level of the descent only calls the nested parsers on shorter text
    (the value of an element apart, which starts where the elements do). *)
Lemma valueStep_transfer s res :
  (forall r x, (length r < length s)%nat -> members r = Some x -> members' r = Some x) ->
  (forall r x, (length r < length s)%nat -> elements r = Some x -> elements' r = Some x) ->
  valueStep members elements s = Some res ->
  valueStep members' elements' s = Some res.
Proof.
  intros Hm He. unfold valueStep.
  destruct (skipWs s) as [|c r0] eqn:Hs; [done|]. apply skipWs_cons in Hs.
  destruct (c =? 123).
  { destruct (skipWs r0) as [|c' r']; [done|]. destruct (c' =? 125); [done|].
    destruct (members r0) as [[ms r'']|] eqn:E; [|done].
    by rewrite (Hm _ _ Hs E). }
  destruct (c =? 91); [|done].
  destruct (skipWs r0) as [|c' r']; [done|]. destruct (c' =? 93); [done|].
  destruct (elements r0) as [[vs r'']|] eqn:E; [|done].
  by rewrite (He _ _ Hs E).
Qed.

Lemma elementsStep_transfer s res :
  consumes value' ->
  (forall x, value' s = Some x -> value'' s = Some x) ->
  (forall r x, (length r < length s)%nat -> elements r = Some x -> elements' r = Some x) ->
  elementsStep value' elements s = Some res ->
  elementsStep value'' elements' s = Some res.
Proof.
  intros Hc Hv He. unfold elementsStep.
  destruct (value' s) as [[v r0]|] eqn:E; [|done].
  rewrite (Hv _ eq_refl). apply Hc in E.
  destruct (skipWs r0) as [|c r'] eqn:Hs; [done|]. apply skipWs_cons in Hs.
  destruct (c =? 44); [|done].
  destruct (elements r') as [[vs' r'']|] eqn:E'; [|done].
  rewrite (He r' _ ltac:(lia) E'). done.
Qed.

Lemma membersStep_transfer s res :
  consumes value' ->
  (forall r x, (length r < length s)%nat -> value' r = Some x -> value'' r = Some x) ->
  (forall r x, (length r < length s)%nat -> members r = Some x -> members' r = Some x) ->
  membersStep value' members s = Some res ->
  membersStep value'' members' s = Some res.
Proof.
  intros Hc Hv Hm. unfold membersStep.
  destruct (skipWs s) as [|q r0] eqn:Hs; [done|]. apply skipWs_cons in Hs.
  destruct (q =? 34); [|done].
  destruct (parseChars r0) as [[k r1]|] eqn:E; [|done]. apply parseChars_consumes in E.
  destruct (skipWs r1) as [|c r2] eqn:Hs1; [done|]. apply skipWs_cons in Hs1.
  destruct (c =? 58); [|done].
  destruct (value' r2) as [[v r3]|] eqn:Ev; [|done].
  rewrite (Hv r2 _ ltac:(lia) Ev). apply Hc in Ev.
  destruct (skipWs r3) as [|c' r4] eqn:Hs3; [done|]. apply skipWs_cons in Hs3.
  destruct (c' =? 44); [|done].
  destruct (members r4) as [[ms' r5]|] eqn:Em; [|done].
  rewrite (Hm r4 _ ltac:(lia) Em). done.
Qed.
End Steps.

Lemma parse_consumes fuel :
  consumes (parseValue fuel) /\ consumes (parseElements fuel)
  /\ consumes (parseMembers fuel).
Proof.
  induction fuel as [|fuel (IHv & IHe & IHm)]; [by repeat split|].
  repeat split; intros s x r H.
  - by apply (valueStep_consumes _ _ IHm IHe s x r).
  - by apply (elementsStep_consumes _ _ IHv IHe s x r).
  - by apply (membersStep_consumes _ _ IHv IHm s x r).
Qed.

(** More fuel changes no result. *)
Lemma parse_fuel_S fuel :
  (forall s x, parseValue fuel s = Some x -> parseValue (S fuel) s = Some x)
  /\ (forall s x, parseElements fuel s = Some x -> parseElements (S fuel) s = Some x)
  /\ (forall s x, parseMembers fuel s = Some x -> parseMembers (S fuel) s = Some x).
Proof.
  induction fuel as [|fuel (IHv & IHe & IHm)]; [by repeat split|].
  destruct (parse_consumes fuel) as (Hcv & _ & _).
  repeat split; intros s x.
  - change (valueStep (parseMembers fuel) (parseElements fuel) s = Some x ->
            valueStep (parseMembers (S fuel)) (parseElements (S fuel)) s = Some x).
    apply valueStep_transfer; [intros r y _; apply IHm | intros r y _; apply IHe].
  - change (elementsStep (parseValue fuel) (parseElements fuel) s = Some x ->
            elementsStep (parseValue (S fuel)) (parseElements (S fuel)) s = Some x).
    apply elementsStep_transfer; [done | apply IHv | intros r y _; apply IHe].
  - change (membersStep (parseValue fuel) (parseMembers fuel) s = Some x ->
            membersStep (parseValue (S fuel)) (parseMembers (S fuel)) s = Some x).
    apply membersStep_transfer;
      [done | intros r y _; apply IHv | intros r y _; apply IHm].
Qed.

Lemma parse_fuel_le fuel fuel' :
  (fuel <= fuel')%nat ->
  (forall s x, parseValue fuel s = Some x -> parseValue fuel' s = Some x)
  /\ (forall s x, parseElements fuel s = Some x -> parseElements fuel' s = Some x)
  /\ (forall s x, parseMembers fuel s = Some x -> parseMembers fuel' s = Some x).
Proof.
  induction 1 as [|fuel' _ (IHv & IHe & IHm)]; [by repeat split|].
  destruct (parse_fuel_S fuel') as (Hv & He & Hm).
  repeat split; intros s x H; auto.
Qed.

(** What any amount of fuel finds in a text of [n] code units or less is
    found with [2 * n + 1] for a value and [2 * n + 2] for the rest. *)
Lemma parse_fuel_bound n :
  forall s, (length s <= n)%nat ->
  (forall fuel x, parseValue fuel s = Some x -> parseValue (2 * n + 1) s = Some x)
  /\ (forall fuel x, parseElements fuel s = Some x -> parseElements (2 * n + 2) s = Some x)
  /\ (forall fuel x, parseMembers fuel s = Some x -> parseMembers (2 * n + 2) s = Some x).
Proof.
  induction n as [|n IH]; intros s Hs.
  - destruct s; [|cbn in Hs; lia].
    repeat split; intros [|fuel] x; try done.
    + cbn [parseElements]. unfold elementsStep.
      destruct (parse_consumes fuel) as (Hcv & _ & _).
      destruct (parseValue fuel []) as [[v r]|] eqn:E; [|done].
      apply Hcv in E. cbn in E. lia.
  - assert (Hv : forall fuel x,
             parseValue fuel s = Some x -> parseValue (2 * S n + 1) s = Some x).
    { intros [|fuel] x; [done|].
      replace (2 * S n + 1)%nat with (S (2 * n + 2)) by lia. cbn [parseValue].
      apply valueStep_transfer.
      - intros r y Hr. apply (IH r). lia.
      - intros r y Hr. apply (IH r). lia. }
    split; [exact Hv|]. split.
    + intros [|fuel] x; [done|].
      replace (2 * S n + 2)%nat with (S (2 * S n + 1)) by lia. cbn [parseElements].
      destruct (parse_consumes fuel) as (Hcv & _ & _).
      apply elementsStep_transfer; [done|apply Hv|].
      intros r y Hr Hy. apply (IH r) in Hy; [|lia].
      eapply parse_fuel_le; [|exact Hy]. lia.
    + intros [|fuel] x; [done|].
      replace (2 * S n + 2)%nat with (S (2 * S n + 1)) by lia. cbn [parseMembers].
      destruct (parse_consumes fuel) as (Hcv & _ & _).
      apply membersStep_transfer; [done| |].
      * intros r y Hr Hy. apply (IH r) in Hy; [|lia].
        eapply parse_fuel_le; [|exact Hy]. lia.
      * intros r y Hr Hy. apply (IH r) in Hy; [|lia].
        eapply parse_fuel_le; [|exact Hy]. lia.
Qed.

(** The fuel of [parse] is enough: what more fuel could find, it finds. *)
Lemma parse_fuel_enough fuel text x :
  parseValue fuel text = Some x ->
  parseValue (2 * length text + 2) text = Some x.
Proof.
  intros H. destruct (parse_fuel_bound (length text) text) as (Hv & _); [done|].
  apply Hv in H. eapply parse_fuel_le; [|exact H]. lia.
Qed.

(** So [parse] fails only on a text that no amount of fuel can parse. *)
Lemma parse_complete fuel text v r :
  parseValue fuel text = Some (v, r) -> skipWs r = [] -> parse text = Some v.
Proof.
  intros H Hr. unfold parse. by rewrite (parse_fuel_enough _ _ _ H), Hr.
Qed.

End JsonFacts.

Module RelayFacts.
Import JS Json Schema Relay Notions JSFacts Utf8Facts JsonFacts.

Lemma reads_concat chunks st :
  split 10 (buffer st) = [buffer st] ->
  foldl read st chunks =
  after st (Utf8.decode (decoder st) (concat chunks)).2
           (Utf8.decode (decoder st) (concat chunks)).1.
Proof.
  revert st. induction chunks as [|c cs IH]; intros st Hbuf.
  - cbn. unfold after. cbn. rewrite app_nil_r, Hbuf. cbn.
    rewrite app_nil_r. by destruct st.
  - cbn [foldl concat]. rewrite decode_app.
    unfold read at 2. destruct (Utf8.decode (decoder st) c) as [dec1 t1] eqn:Hd.
    cbn [fst snd]. unfold pop.
    destruct (split_last_some 10 (buffer st ++ t1)) as [l1 Hl1].
    rewrite IH; cbn [buffer decoder enqueued].
    2:{ rewrite Hl1. cbn. by eapply split_last_line. }
    unfold after. cbn [buffer decoder enqueued].
    rewrite (app_assoc (buffer st) t1), (split_app 10 (buffer st ++ t1)).
    pose proof (split_nonempty 10 (orEmpty (last (split 10 (buffer st ++ t1))) ++
      (Utf8.decode dec1 (concat cs)).2)) as Hne.
    rewrite last_app_ne by done. rewrite removelast_app by done.
    rewrite flat_map_app, app_assoc. done.
Qed.

(** C1. Chunk-split invariance of the relay: however the bytes of a
    payload are cut into chunks, the relay enqueues the same events in the
    same order as for the whole payload read as one chunk. The payload
    need not even be valid: the statement holds for all byte sequences. *)
Theorem relay_chunk_split_invariance (chunks : list (list byte)) :
  POST_stream chunks = POST_stream [concat chunks].
Proof.
  unfold POST_stream. rewrite !reads_concat by done.
  cbn [concat]. by rewrite app_nil_r.
Qed.

Lemma errorEvent_line : option_map enqueue errorEvent = Some validationErrorLine.
Proof. vm_compute. reflexivity. Qed.

(** A line that parses but fails validation is answered, inside the read
    loop, by the synthetic error event. *)
Lemma forwardLine_invalid line parsed :
  parse line = Some parsed -> ChatStreamEventSchema parsed = None ->
  forwardLine line = [validationErrorLine].
Proof.
  intros Hp Hv. unfold forwardLine.
  rewrite (parse_truthy _ _ Hp), Hp, Hv. cbn [negb].
  pose proof errorEvent_line as He.
  destruct errorEvent as [e|]; [|done]. cbn in He. by injection He as ->.
Qed.

(** The same line left in the buffer at the end of the upstream is only
    logged. *)
Lemma flushBuffer_invalid buffer parsed :
  parse buffer = Some parsed -> ChatStreamEventSchema parsed = None ->
  flushBuffer buffer = [].
Proof.
  intros Hp Hv. unfold flushBuffer. by rewrite (parse_truthy _ _ Hp), Hp, Hv.
Qed.

(** No object whose [type] is 'tool' passes [ChatStreamEventSchema]: the
    union has the three options delta, error and done. *)
Lemma tool_fails_validation ms :
  get (lit "type") ms = Some (JString (lit "tool")) ->
  ChatStreamEventSchema (JObject ms) = None.
Proof. intros H. unfold ChatStreamEventSchema. rewrite H. reflexivity. Qed.

(** C2, at the failing input. The line of a tool event parses, fails the
    validation of [ChatStreamEventSchema], and the relay answers it with
    the synthetic error event instead of forwarding it. *)
Theorem relay_rejects_tool_event :
  parse toolLine =
    Some (JObject [(lit "type", JString (lit "tool"));
                   (lit "name", JString (lit "generateFlashcards"));
                   (lit "args", JObject [(lit "topic", JString (lit "limits"))])])
  /\ (forall parsed, parse toolLine = Some parsed -> ChatStreamEventSchema parsed = None)
  /\ POST_stream [Utf8.bytes (toolLine ++ [10])] = [validationErrorLine].
Proof.
  assert (Hp : parse toolLine =
    Some (JObject [(lit "type", JString (lit "tool"));
                   (lit "name", JString (lit "generateFlashcards"));
                   (lit "args", JObject [(lit "topic", JString (lit "limits"))])]))
    by (vm_compute; reflexivity).
  split; [exact Hp|]. split.
  - intros parsed. rewrite Hp. intros [= <-]. by apply tool_fails_validation.
  - vm_compute. reflexivity.
Qed.

(** C6, at the failing input. A line that parses and fails validation
    gives the synthetic error event when a line feed ends it, and nothing
    at all when it is what the upstream ends with. *)
Theorem relay_trailing_invalid_event_dropped :
  parse deltaWithoutToken = Some (JObject [(lit "type", JString (lit "delta"))])
  /\ ChatStreamEventSchema (JObject [(lit "type", JString (lit "delta"))]) = None
  /\ POST_stream [Utf8.bytes (deltaWithoutToken ++ [10])] = [validationErrorLine]
  /\ POST_stream [Utf8.bytes deltaWithoutToken] = [].
Proof. repeat split; vm_compute; reflexivity. Qed.

End RelayFacts.

Module ConsumerFacts.
Import JS Json Consumer Notions JSFacts JsonFacts.

Section Handlers.
Context {S : Type}.
Variable onToken : option value -> S -> option S.
Variable onTool : option value -> option value -> S -> option S.
Variable onDone : value -> S -> option S.

Local Abbreviation handlePart := (handlePart onToken onTool onDone).
Local Abbreviation handleParts := (handleParts onToken onTool onDone).

Lemma handleParts_app pre post s :
  handleParts (pre ++ post) s =
  match handleParts pre s with
  | Some s' => handleParts post s'
  | None => None
  end.
Proof.
  revert s. induction pre as [|p pre IH]; intros s; [done|].
  cbn. destruct (handlePart p s); [apply IH|done].
Qed.

(** A part that parses to an object is dispatched on its [type]. *)
Lemma handlePart_object part ms s :
  parse part = Some (JObject ms) ->
  handlePart part s = dispatch onToken onTool onDone (JObject ms) s.
Proof.
  intros Hp. unfold Consumer.handlePart.
  by rewrite (parse_truthy _ _ Hp), Hp.
Qed.

(** C10. A line that parses as JSON with [type] 'error' calls none of
    the three handlers and does not throw: the caller's state is what it
    was, and the lines after it are handled as if it were not there. *)
Theorem consumer_discards_error_events (part : jsstring) ms :
  parse part = Some (JObject ms) ->
  get (lit "type") ms = Some (JString (lit "error")) ->
  (forall s, handlePart part s = Some s)
  /\ (forall pre post s,
        handleParts (pre ++ part :: post) s = handleParts (pre ++ post) s).
Proof.
  intros Hp Ht.
  assert (Hpart : forall s, handlePart part s = Some s).
  { intros s. rewrite (handlePart_object _ _ _ Hp).
    unfold dispatch, literalType. rewrite Ht. reflexivity. }
  split; [done|]. intros pre post s. rewrite !handleParts_app.
  destruct (handleParts pre s) as [s'|]; [|done].
  cbn. by rewrite Hpart.
Qed.
End Handlers.

End ConsumerFacts.


Module PageFacts.
Import JS Json Page Notions JSFacts JsonFacts ConsumerFacts.

(** *** C3: the range of [calculateSimilarity] *)

Section SimilarityRange.
Variable toLowerCase : jsstring -> jsstring.

Lemma commonWords_le_left (w1 w2 : list jsstring) :
  (length (commonWords w1 w2) <= length w1)%nat.
Proof. apply length_filter. Qed.

(** When no word of the first list is repeated, every common word stands
    for a different word of the second list. *)
Lemma commonWords_le_right (w1 w2 : list jsstring) :
  NoDup w1 -> (length (commonWords w1 w2) <= length w2)%nat.
Proof.
  intros Hnd. apply submseteq_length, NoDup_submseteq.
  - by apply NoDup_filter.
  - intros w Hw. by apply list_elem_of_filter in Hw as [? _].
Qed.

Lemma ratio_bounds (c n1 n2 : nat) :
  (c <= n1)%nat -> n1 ≠ 0%nat -> n2 ≠ 0%nat ->
  let q := (Z.of_nat (c * 2) # Pos.of_nat (n1 + n2))%Q in
  (0 <= q)%Q /\ (q < 2)%Q /\ ((c <= n2)%nat -> (q <= 1)%Q).
Proof.
  intros Hc H1 H2 q. unfold q, Qle, Qlt. cbn [Qnum Qden].
  assert (Hden : Z.pos (Pos.of_nat (n1 + n2)) = Z.of_nat (n1 + n2)).
  { rewrite <- positive_nat_Z, Nat2Pos.id by lia. done. }
  rewrite Hden. clear q Hden. split; [lia|]. split; [lia|]. intros Hc2. lia.
Qed.

(** C3, as amended. The similarity is never negative and stays below 2;
    it is at most 1 whenever the words longer than 3 of the longer string
    are pairwise distinct. *)
Theorem similarity_bounds (str1 str2 : jsstring) :
  let s := calculateSimilarity toLowerCase str1 str2 in
  (0 <= s)%Q /\ (s < 2)%Q
  /\ (NoDup (words (normalize toLowerCase (longerOf str1 str2)))
      -> (s <= 1)%Q).
Proof.
  unfold calculateSimilarity, longerOf.
  set (longer := if (length str2 <? length str1)%nat then str1 else str2).
  set (shorter := if (length str2 <? length str1)%nat then str2 else str1).
  destruct (length longer =? 0)%nat; [by cbv|].
  destruct (_ || _); [by cbv|].
  set (words1 := words (normalize toLowerCase longer)).
  set (words2 := words (normalize toLowerCase shorter)).
  destruct (length words1 =? 0)%nat eqn:E1; [by cbv|].
  destruct (length words2 =? 0)%nat eqn:E2; [by cbv|].
  cbn [orb]. apply Nat.eqb_neq in E1, E2.
  pose proof (commonWords_le_left words1 words2) as Hl.
  destruct (ratio_bounds _ _ _ Hl E1 E2) as (H0 & H2 & H1).
  split; [done|]. split; [done|]. intros Hnd. apply H1.
  by apply commonWords_le_right.
Qed.

End SimilarityRange.

(** C3, refuted as stated. The longer string repeats four times a word
    that the shorter one has once: the four count as common, against five
    words in all, which gives 8/5. *)
Lemma similarity_exceeds_one :
  (calculateSimilarity toLowerCaseAscii (lit "abcd abcd abcd abcd") (lit "abcd yy")
   == 8 # 5)%Q
  /\ ~ (calculateSimilarity toLowerCaseAscii (lit "abcd abcd abcd abcd") (lit "abcd yy")
        <= 1)%Q.
Proof. split; vm_compute; [reflexivity | intros H; by apply H]. Qed.

(** The bounds at work on two strings without repeated words. *)
Lemma similarity_bounds_witness :
  NoDup (words
           (normalize toLowerCaseAscii
              (longerOf (lit "alpha beta gamma") (lit "alpha delta zz"))))
  /\ (0 <= calculateSimilarity toLowerCaseAscii
             (lit "alpha beta gamma") (lit "alpha delta zz") <= 1)%Q.
Proof.
  assert (Hnd : NoDup (words
           (normalize toLowerCaseAscii
              (longerOf (lit "alpha beta gamma") (lit "alpha delta zz"))))).
  { apply (bool_decide_unpack _). vm_compute. exact I. }
  split; [exact Hnd|].
  destruct (similarity_bounds toLowerCaseAscii
              (lit "alpha beta gamma") (lit "alpha delta zz")) as (H0 & _ & H1).
  split; [exact H0 | exact (H1 Hnd)].
Defined.

(** *** C4: the role prefix and the token handler *)

Section TokenHandler.
Variable onTool : option value -> option value -> state -> option state.
Variable onDone : value -> state -> option state.

Lemma received_cons st t ts : received (received st [t]) ts = received st (t :: ts).
Proof.
  destruct ts as [|t' ts]; [done|].
  unfold received. cbn [firstToken content fmap list_fmap concat].
  f_equal. destruct (firstToken st); cbn [app]; by rewrite ?app_nil_r, <- ?app_assoc.
Qed.

(** [streamChat] hands the fragment of a delta line to [onToken] as it
    is, and [onToken] strips the role prefix whatever [firstToken] says. *)
Lemma handlePart_delta part token st :
  isDelta part token ->
  Consumer.handlePart onToken onTool onDone part st = Some (received st [token]).
Proof.
  intros (ms & Hp & Hty & Htok).
  rewrite (handlePart_object _ _ _ _ _ _ Hp).
  unfold Consumer.dispatch, Consumer.literalType. rewrite Hty, Htok.
  cbn. unfold received. cbn. rewrite !app_nil_r.
  destruct st as [[] c]; reflexivity.
Qed.

(** C4, as amended. Every delta fragment, the first one and the later
    ones alike, loses a leading role prefix on its way to the message:
    after the delta lines [parts] with fragments [tokens], the message is
    the concatenation of the stripped fragments (appended to what was
    there if a first fragment had come before). *)
Theorem role_prefix_stripped_from_every_fragment parts tokens st :
  Forall2 isDelta parts tokens ->
  Consumer.handleParts onToken onTool onDone parts st = Some (received st tokens).
Proof.
  intros H. revert st. induction H as [|part token parts tokens Hd _ IH]; intros st.
  - reflexivity.
  - cbn [Consumer.handleParts]. rewrite (handlePart_delta _ _ _ Hd).
    rewrite IH. by rewrite received_cons.
Qed.

End TokenHandler.

(** C4, refuted as stated. The second fragment, 'assistant: there', does
    not keep its prefix: the message reads 'Hi there'. *)
Lemma later_fragment_loses_role_prefix :
  content <$> Consumer.streamChat onToken noTool noDone [Utf8.bytes twoDeltas] waiting
  = Some (lit "Hi there")
  /\ lit "Hi there" <> lit "Hi " ++ lit "assistant: there".
Proof. split; [vm_compute; reflexivity | discriminate]. Qed.

(** The two delta lines of the counterexample, through the theorem. *)
Lemma role_prefix_witness :
  Forall2 isDelta
    [jsonlit "{'type':'delta','token':'Hi '}";
     jsonlit "{'type':'delta','token':'assistant: there'}"]
    [lit "Hi "; lit "assistant: there"]
  /\ Consumer.handleParts onToken noTool noDone
       [jsonlit "{'type':'delta','token':'Hi '}";
        jsonlit "{'type':'delta','token':'assistant: there'}"] waiting
     = Some (mkState false (lit "Hi there")).
Proof.
  assert (H : Forall2 isDelta
    [jsonlit "{'type':'delta','token':'Hi '}";
     jsonlit "{'type':'delta','token':'assistant: there'}"]
    [lit "Hi "; lit "assistant: there"]).
  { repeat constructor.
    - exists [(lit "type", JString (lit "delta")); (lit "token", JString (lit "Hi "))].
      repeat split; vm_compute; reflexivity.
    - exists [(lit "type", JString (lit "delta"));
              (lit "token", JString (lit "assistant: there"))].
      repeat split; vm_compute; reflexivity. }
  split; [exact H|].
  exact (role_prefix_stripped_from_every_fragment noTool noDone _ _ waiting H).
Defined.

(** *** C5: the paragraph check *)

Section Paragraphs.
Variable toLowerCase : jsstring -> jsstring.

Local Abbreviation key := (normalized toLowerCase).
Local Abbreviation scan := (foldl (visit toLowerCase) (∅, [])).

(** What [seen] knows after the sections [l]: a key has a count other
    than 0 exactly when it is the key of one of them. *)
Lemma seen_spec (l : list jsstring) (k : jsstring) :
  default 0%nat ((scan l).1 !! k) = 0%nat <-> k ∉ key <$> l.
Proof.
  induction l as [|s l IH] using rev_ind.
  - cbn. rewrite lookup_empty. cbn. split; [intros _; apply not_elem_of_nil|done].
  - rewrite foldl_snoc, fmap_app. cbn [fmap list_fmap].
    rewrite not_elem_of_app, list_elem_of_singleton.
    destruct (scan l) as [seen uniq]. cbn [fst] in IH.
    unfold visit. destruct (default 0%nat (seen !! key s) =? 0)%nat eqn:E; cbn [fst].
    + destruct (decide (k = key s)) as [->|Hne].
      * rewrite lookup_insert_eq. cbn. split; [done|]. by intros [_ ?].
      * rewrite lookup_insert_ne by done. rewrite IH. tauto.
    + destruct (decide (k = key s)) as [->|Hne].
      * rewrite lookup_insert_eq. cbn. split; [lia|]. by intros [_ ?].
      * rewrite lookup_insert_ne by done. rewrite IH. tauto.
Qed.

(** A section is kept exactly when no earlier section has its key, and
    the kept sections stay in their order. *)
Lemma uniqueSections_snoc (pre : list jsstring) (s : jsstring) :
  uniqueSections toLowerCase (pre ++ [s]) =
  uniqueSections toLowerCase pre
  ++ (if decide (key s ∈ key <$> pre) then [] else [s]).
Proof.
  unfold uniqueSections. rewrite foldl_snoc.
  pose proof (seen_spec pre (key s)) as Hseen.
  destruct (scan pre) as [seen uniq]. cbn [fst snd] in *.
  unfold visit. destruct (default 0%nat (seen !! key s) =? 0)%nat eqn:E; cbn [snd].
  - apply Nat.eqb_eq in E. apply Hseen in E. by rewrite decide_False.
  - apply Nat.eqb_neq in E. rewrite decide_True; [by rewrite app_nil_r|].
    destruct (decide (key s ∈ key <$> pre)); [done|]. by apply Hseen in n.
Qed.

Lemma uniqueSections_length (l : list jsstring) :
  (length (uniqueSections toLowerCase l) <= length l)%nat
  /\ (length (uniqueSections toLowerCase l) = length l <-> NoDup (key <$> l)).
Proof.
  induction l as [|s l [IHle IHeq]] using rev_ind.
  - cbn. split; [done|]. split; [constructor|done].
  - rewrite uniqueSections_snoc, fmap_app, !length_app. cbn [fmap list_fmap length].
    rewrite NoDup_app. destruct (decide (key s ∈ key <$> l)) as [Hin|Hnin]; cbn [length].
    + split; [lia|]. split; [lia|]. intros (_ & Hdis & _).
      exfalso. apply (Hdis _ Hin). left.
    + split; [lia|]. split.
      * intros Hlen. split; [apply IHeq; lia|]. split; [|apply NoDup_singleton].
        intros x Hx [->|[]%elem_of_nil]%elem_of_cons. done.
      * intros (Hnd & _ & _). apply IHeq in Hnd. lia.
Qed.

(** C5, as amended. The key of a section is made from its trimmed lower
    case by taking the first 150 code units and then collapsing the runs
    of white space ([normalized]). A section is kept exactly when no
    earlier section has its key, in the original order; when a section is
    dropped the kept ones are joined by one blank line, and otherwise the
    text is left as it is. *)
Theorem paragraph_check (content : jsstring) :
  (forall pre s,
      uniqueSections toLowerCase (pre ++ [s]) =
      uniqueSections toLowerCase pre
      ++ (if decide (normalized toLowerCase s ∈ normalized toLowerCase <$> pre)
          then [] else [s]))
  /\ dedupeParagraphs toLowerCase content =
     if decide (NoDup (normalized toLowerCase <$> sectionsOf content))
     then content
     else join [10; 10] (uniqueSections toLowerCase (sectionsOf content)).
Proof.
  split; [apply uniqueSections_snoc|].
  unfold dedupeParagraphs.
  destruct (uniqueSections_length (sectionsOf content)) as [Hle Heq].
  destruct (1 <? length (sectionsOf content))%nat eqn:E1.
  - destruct (length _ <? length _)%nat eqn:E2.
    + apply Nat.ltb_lt in E2. rewrite decide_False; [done|].
      intros Hnd. apply Heq in Hnd. lia.
    + apply Nat.ltb_ge in E2. rewrite decide_True; [done|]. apply Heq. lia.
  - apply Nat.ltb_ge in E1. rewrite decide_True; [done|].
    destruct (sectionsOf content) as [|s [|s' l]]; cbn in E1; [constructor| |lia].
    apply NoDup_singleton.
Qed.

End Paragraphs.

(** C5, refuted as stated. The key of the code differs from the key as
    stated: the two sections have one key in the code, so the second one
    is dropped, and two keys as stated, so it would be kept. *)
Lemma paragraph_key_truncates_before_collapsing :
  sectionsOf (sectionB ++ [10; 10] ++ sectionC) = [sectionB; sectionC]
  /\ normalized toLowerCaseAscii sectionB <> signatureAsStated toLowerCaseAscii sectionB
  /\ signatureAsStated toLowerCaseAscii sectionB
     <> signatureAsStated toLowerCaseAscii sectionC
  /\ halvesDuplicated toLowerCaseAscii (sectionB ++ [10; 10] ++ sectionC) = false
  /\ deduplicate toLowerCaseAscii (sectionB ++ [10; 10] ++ sectionC) = sectionB.
Proof.
  split; [vm_compute; reflexivity|].
  split; [vm_compute; discriminate|].
  split; [vm_compute; discriminate|].
  split; vm_compute; reflexivity.
Qed.

(** *** C7: the halves check *)

Lemma startsWith_refl s : startsWith s s = true.
Proof. induction s as [|c s IH]; [done|]. cbn. by rewrite N.eqb_refl, IH. Qed.

Lemma includes_refl s : includes s s = true.
Proof.
  unfold includes. destruct s as [|c s]; [done|].
  cbn [indexOf]. by rewrite startsWith_refl.
Qed.

Lemma tight_nonempty s : tight s -> s <> [].
Proof. intros (a & m & z & _ & _ & [-> | ->]); done. Qed.

Lemma tight_sandwich X m : tight X -> tight (X ++ m ++ X).
Proof.
  intros (a & mm & z & Ha & Hz & [-> | ->]).
  - exists a, m, a. split; [done|]. split; [done|]. by right.
  - exists a, (mm ++ [z] ++ m ++ a :: mm), z. split; [done|]. split; [done|].
    right. by repeat progress (rewrite <- ?app_assoc; cbn [app]).
Qed.

Lemma blank_take k m : blank m -> blank (take k m).
Proof. apply Forall_take. Qed.

Lemma blank_drop k m : blank m -> blank (drop k m).
Proof. apply Forall_drop. Qed.

(** The halves of a tight text written twice, with white space or nothing
    between the copies, are that text. *)
Lemma halves_of_double X m :
  tight X -> blank m ->
  firstHalf (X ++ m ++ X) = X /\ secondHalf (X ++ m ++ X) = X.
Proof.
  intros HX Hm. unfold firstHalf, secondHalf, substring, substringFrom.
  assert (Hmid : (length (X ++ m ++ X) / 2 = length X + length m / 2)%nat).
  { rewrite !length_app.
    replace (length X + (length m + length X))%nat
      with (length m + length X * 2)%nat by lia.
    rewrite Nat.div_add by done. lia. }
  rewrite Hmid. cbn [Nat.min Nat.max]. rewrite Nat.sub_0_r, drop_0.
  assert (Hk : (length m / 2 <= length m)%nat).
  { apply Nat.Div0.div_le_upper_bound. lia. }
  split.
  - rewrite take_app_add, take_app_le by done.
    rewrite <- (app_nil_l (X ++ _)). apply trim_pad; [constructor| |done].
    by apply blank_take.
  - rewrite drop_app_add, drop_app_le by done.
    transitivity (trim (drop (length m / 2) m ++ X ++ [])); [by rewrite app_nil_r|].
    apply trim_pad; [|constructor|done]. by apply blank_drop.
Qed.

Section Halves.
Variable toLowerCase : jsstring -> jsstring.

(** A text compared with itself counts as very likely duplicate. *)
Lemma similarity_self X :
  X <> [] -> calculateSimilarity toLowerCase X X = (9 # 10)%Q.
Proof.
  intros HX. unfold calculateSimilarity. rewrite Nat.ltb_irrefl.
  destruct X as [|c X]; [done|]. cbn [length Nat.eqb].
  by rewrite includes_refl.
Qed.

Lemma deduplicate_double A :
  (100 < length (trim A))%nat ->
  deduplicate toLowerCase (trim (A ++ A)) = trim A.
Proof.
  intros Hlen.
  destruct (trim_split A) as (l & r & Hl & Hr & HA & [Hnil|Ht]).
  { rewrite Hnil in Hlen. cbn in Hlen. lia. }
  assert (Htrim : trim (A ++ A) = trim A ++ (r ++ l) ++ trim A).
  { remember (trim A) as X eqn:HX. clear HX. subst A.
    transitivity (trim (l ++ (X ++ (r ++ l) ++ X) ++ r)).
    { f_equal. by rewrite <- !app_assoc. }
    apply trim_pad; [done|done|]. by apply tight_sandwich. }
  rewrite Htrim.
  destruct (halves_of_double (trim A) (r ++ l) Ht) as [H1 H2].
  { by apply Forall_app. }
  unfold deduplicate, halvesDuplicated. rewrite H1, H2.
  rewrite similarity_self by (by apply tight_nonempty).
  apply Nat.ltb_lt in Hlen. by rewrite Hlen.
Qed.

(** C7, as amended. When the halves of the trimmed message are both
    longer than 100 and more than 0.8 similar, the detector keeps the
    first half and the paragraph check is not run: [cleanLaTeX] of the
    first half is what the message becomes. In particular a text [A]
    written twice gives [A] trimmed, provided [A] trimmed is longer than
    100. *)
Theorem halves_check (raw A : jsstring) :
  ((100 < length (firstHalf (trim raw)))%nat ->
   (100 < length (secondHalf (trim raw)))%nat ->
   (8 # 10 < calculateSimilarity toLowerCase (firstHalf (trim raw))
                                 (secondHalf (trim raw)))%Q ->
   deduplicate toLowerCase (trim raw) = firstHalf (trim raw)
   /\ onDone toLowerCase raw = Some (Latex.cleanLaTeX (firstHalf (trim raw))))
  /\ ((100 < length (trim A))%nat ->
      deduplicate toLowerCase (trim (A ++ A)) = trim A).
Proof.
  split; [|apply deduplicate_double].
  intros H1 H2 Hs.
  assert (Hd : deduplicate toLowerCase (trim raw) = firstHalf (trim raw)).
  { unfold deduplicate, halvesDuplicated.
    apply Nat.ltb_lt in H1, H2. rewrite H1, H2. cbn [andb].
    destruct (Qle_bool _ _) eqn:E; [|done].
    apply Qle_bool_iff in E. by apply Qlt_not_le in Hs. }
  split; [done|]. unfold onDone. rewrite Hd.
  destruct raw as [|c raw]; [|done]. cbn in H1. lia.
Qed.

End Halves.

(** C7, refuted as stated. [paddedA] is longer than 100, its halves after
    trimming are not, and the text that writes it twice stays as it is. *)
Lemma doubled_text_with_short_halves_kept :
  length paddedA = 101%nat
  /\ trim paddedA = replicate 100 120
  /\ onDone toLowerCaseAscii (paddedA ++ paddedA)
     = Some (replicate 100 120 ++ [32] ++ replicate 100 120)
  /\ onDone toLowerCaseAscii (paddedA ++ paddedA) <> Some (trim paddedA).
Proof.
  split; [reflexivity|]. split; [vm_compute; reflexivity|].
  split; [vm_compute; reflexivity|]. vm_compute. discriminate.
Qed.

(** The halves check on 101 letters written twice. *)
Lemma halves_check_witness :
  ((100 < length (firstHalf (trim (plainA ++ plainA))))%nat
   /\ (100 < length (secondHalf (trim (plainA ++ plainA))))%nat
   /\ (8 # 10 < calculateSimilarity toLowerCaseAscii
                  (firstHalf (trim (plainA ++ plainA)))
                  (secondHalf (trim (plainA ++ plainA))))%Q
   /\ (100 < length (trim plainA))%nat)
  /\ deduplicate toLowerCaseAscii (trim (plainA ++ plainA)) = plainA.
Proof.
  assert (H1 : (100 < length (firstHalf (trim (plainA ++ plainA))))%nat)
    by (vm_compute; lia).
  assert (H2 : (100 < length (secondHalf (trim (plainA ++ plainA))))%nat)
    by (vm_compute; lia).
  assert (H3 : (8 # 10 < calculateSimilarity toLowerCaseAscii
                  (firstHalf (trim (plainA ++ plainA)))
                  (secondHalf (trim (plainA ++ plainA))))%Q)
    by (vm_compute; reflexivity).
  assert (H4 : (100 < length (trim plainA))%nat) by (vm_compute; lia).
  split; [done|].
  destruct (halves_check toLowerCaseAscii (plainA ++ plainA) plainA) as [Ha Hb].
  destruct (Ha H1 H2 H3) as [Hd _].
  rewrite Hd. vm_compute. reflexivity.
Defined.

(** The scenario of the specification: three chunks that cut a line in
    two go through the relay and then through the consumer; the message
    is 'Hello world'. *)
Example relay_then_consumer :
  content <$> Consumer.streamChat onToken noTool noDone
                (Utf8.bytes <$> Relay.POST_stream
                   [Utf8.bytes (jsonlit "{'type':'delta','token':'Hel");
                    Utf8.bytes (jsonlit "lo'}" ++ [10]
                                ++ jsonlit "{'type':'delta','token':' world'}" ++ [10]);
                    Utf8.bytes (jsonlit "{'type':'done'}" ++ [10])])
                waiting
  = Some (lit "Hello world").
Proof. vm_compute. reflexivity. Qed.

(** The synthetic error line of the relay, through the theorem of C10:
    it changes nothing, and the delta line after it is handled. *)
Lemma consumer_discards_error_events_witness :
  (parse errorLine =
     Some (JObject [(lit "type", JString (lit "error"));
                    (lit "message", JString (lit "Invalid event format from backend"));
                    (lit "code", JString (lit "validation_error"))])
   /\ get (lit "type")
        [(lit "type", JString (lit "error"));
         (lit "message", JString (lit "Invalid event format from backend"));
         (lit "code", JString (lit "validation_error"))]
      = Some (JString (lit "error")))
  /\ Consumer.handlePart onToken noTool noDone errorLine waiting = Some waiting
  /\ Consumer.handleParts onToken noTool noDone [errorLine; helloLine] waiting
     = Consumer.handleParts onToken noTool noDone [helloLine] waiting.
Proof.
  assert (Hp : parse errorLine =
     Some (JObject [(lit "type", JString (lit "error"));
                    (lit "message", JString (lit "Invalid event format from backend"));
                    (lit "code", JString (lit "validation_error"))]))
    by (vm_compute; reflexivity).
  assert (Ht : get (lit "type")
        [(lit "type", JString (lit "error"));
         (lit "message", JString (lit "Invalid event format from backend"));
         (lit "code", JString (lit "validation_error"))]
      = Some (JString (lit "error"))) by (vm_compute; reflexivity).
  split; [by split|].
  destruct (consumer_discards_error_events onToken noTool noDone errorLine _ Hp Ht)
    as [H1 H2].
  split; [apply H1 | apply (H2 [] [helloLine] waiting)].
Defined.

End PageFacts.

Module LatexFacts.
Import JS Latex Notions JSFacts JsonFacts.

(** Literals are replaced by their code units. *)
Ltac lits :=
  repeat match goal with
         | |- context [JS.lit ?s] =>
             let v := eval vm_compute in (JS.lit s) in change (JS.lit s) with v
         end.

(** *** Greedy character classes *)

Lemma run_stop (p : N -> bool) a c r :
  Forall (fun x => p x = true) a -> p c = false -> run p (a ++ c :: r) = (a, c :: r).
Proof.
  induction 1 as [|x a Hx _ IH]; intros Hc; cbn.
  - by rewrite Hc.
  - by rewrite Hx, IH.
Qed.

Lemma run_all (p : N -> bool) a :
  Forall (fun x => p x = true) a -> run p a = (a, []).
Proof. induction 1 as [|x a Hx _ IH]; cbn; [done|]. by rewrite Hx, IH. Qed.

Lemma run_app (p : N -> bool) s : (run p s).1 ++ (run p s).2 = s.
Proof.
  induction s as [|c s IH]; [done|]. cbn. destruct (p c); [|done].
  destruct (run p s) as [a r]. cbn in *. by rewrite IH.
Qed.

Lemma notGt_all f : 62 ∉ f -> Forall (fun x => notGt x = true) f.
Proof.
  intros H. apply Forall_forall. intros x Hx. unfold notGt.
  destruct (x =? 62) eqn:E; [|done]. apply N.eqb_eq in E. by subst.
Qed.

Lemma notDollar_all g : 36 ∉ g -> Forall (fun x => notDollar x = true) g.
Proof.
  intros H. apply Forall_forall. intros x Hx. unfold notDollar.
  destruct (x =? 36) eqn:E; [|done]. apply N.eqb_eq in E. by subst.
Qed.

(** *** Global replacement *)

Section ReplaceFacts.
Variable matchAt : bool -> jsstring -> option (jsstring * nat).

(** The units of a match are passed over. *)
Lemma replaceFrom_skip b a s :
  a <> [] -> replaceFrom matchAt b (length a) (a ++ s) = replaceFrom matchAt false 0 s.
Proof.
  revert b. induction a as [|c a IH]; intros b Ha; [done|].
  cbn. destruct a as [|c' a]; [done|]. by apply IH.
Qed.

(** Where the pattern matches nowhere, nothing is replaced. *)
Lemma replaceFrom_id b s :
  matchAt b s = None ->
  (forall i, matchAt false (drop (S i) s) = None) ->
  replaceFrom matchAt b 0 s = s.
Proof.
  revert b. induction s as [|c s IH]; intros b H0 Hi; [done|].
  cbn. rewrite H0. f_equal. apply IH.
  - apply (Hi 0%nat).
  - intros i. apply (Hi (S i)).
Qed.

Lemma replaceAll_id s :
  (forall b i, matchAt b (drop i s) = None) -> replaceAll matchAt s = s.
Proof.
  intros H. apply replaceFrom_id; [apply (H true 0%nat)|]. intros i. apply H.
Qed.
End ReplaceFacts.

(** *** Step 0 *)

Lemma matchFormula_atStart b s : matchFormula b s = matchFormula false s.
Proof. done. Qed.

Lemma convert_atStart b k s :
  replaceFrom matchFormula b k s = replaceFrom matchFormula false k s.
Proof. destruct s as [|c s]; [done|]. by destruct k. Qed.

(** The pattern of step 0 on a span: three [<], a formula that is not
    empty and has no [>], three [>]. *)
Lemma startsWith_app p s : startsWith p (p ++ s) = true.
Proof. induction p as [|c p IH]; [done|]. cbn. by rewrite N.eqb_refl, IH. Qed.

Lemma truthy_ne s : s <> [] -> truthy s = true.
Proof. by destruct s. Qed.

Lemma matchFormula_span b formula post :
  formula <> [] -> 62 ∉ formula ->
  matchFormula b (lit "<<<" ++ formula ++ lit ">>>" ++ post)
  = Some (convertFormula formula, (3 + length formula + 3)%nat).
Proof.
  intros Hne Hgt. unfold matchFormula. rewrite startsWith_app.
  change (drop 3 (lit "<<<" ++ formula ++ lit ">>>" ++ post))
    with (formula ++ 62 :: (lit ">>" ++ post)).
  rewrite run_stop; [|by apply notGt_all|done].
  change (62 :: (lit ">>" ++ post)) with (lit ">>>" ++ post).
  by rewrite truthy_ne, startsWith_app.
Qed.

(** No match starts at a unit other than [<]. *)
Lemma matchFormula_other b c s : c <> 60 -> matchFormula b (c :: s) = None.
Proof.
  intros Hc. unfold matchFormula. lits. cbn [startsWith].
  apply N.eqb_neq in Hc. rewrite N.eqb_sym in Hc. by rewrite Hc.
Qed.

Lemma convert_prefix b pre rest :
  60 ∉ pre ->
  replaceFrom matchFormula b 0 (pre ++ rest)
  = pre ++ replaceFrom matchFormula false 0 rest.
Proof.
  revert b. induction pre as [|c pre IH]; intros b Hpre.
  - apply convert_atStart.
  - apply not_elem_of_cons in Hpre as [Hc Hpre].
    cbn. rewrite matchFormula_other by done. f_equal. by apply IH.
Qed.

Lemma convertFormula_wrapped formula : convertFormula formula = wrapped formula.
Proof. reflexivity. Qed.

Lemma isDisplayMath_criterion t : isDisplayMath t = true <-> displayCriterion t.
Proof.
  unfold isDisplayMath, displayCriterion.
  rewrite !orb_true_iff, andb_true_iff, !Nat.ltb_lt. tauto.
Qed.

Lemma span_converted formula post :
  formula <> [] -> 62 ∉ formula ->
  replaceFrom matchFormula false 0 (lit "<<<" ++ formula ++ lit ">>>" ++ post)
  = convertFormula formula ++ replaceFrom matchFormula false 0 post.
Proof.
  intros Hne Hgt.
  pose proof (matchFormula_span false formula post Hne Hgt) as Hm.
  change (lit "<<<" ++ formula ++ lit ">>>" ++ post)
    with (60 :: (lit "<<" ++ formula ++ lit ">>>" ++ post)) in *.
  cbn [replaceFrom]. rewrite Hm. f_equal.
  replace (3 + length formula + 3 - 1)%nat
    with (length (lit "<<" ++ formula ++ lit ">>>"))
    by (rewrite !length_app; cbn; lia).
  replace (lit "<<" ++ formula ++ lit ">>>" ++ post)
    with ((lit "<<" ++ formula ++ lit ">>>") ++ post)
    by (by rewrite <- !app_assoc).
  by apply replaceFrom_skip.
Qed.

(** C8, as amended. A span whose formula is not empty and holds no [>]
    is replaced by its trimmed formula between block delimiters exactly
    when the trimmed formula meets one of the display conditions, and
    between inline delimiters otherwise; the text before the span (which
    holds no [<]) stays and the text after it is converted in turn. The
    two examples of the specification come out as stated from the whole
    normalizer. *)
Theorem formula_span_converted (pre formula post : jsstring) :
  formula <> [] -> 62 ∉ formula -> 60 ∉ pre ->
  convertDelimiters (pre ++ lit "<<<" ++ formula ++ lit ">>>" ++ post)
  = pre
    ++ (if isDisplayMath (trim formula)
        then lit "$$" ++ trim formula ++ lit "$$"
        else lit "$" ++ trim formula ++ lit "$")
    ++ convertDelimiters post
  /\ (isDisplayMath (trim formula) = true <-> displayCriterion (trim formula))
  /\ cleanLaTeX (lit "<<<\frac{1}{2}>>>") = lit "$$\frac{1}{2}$$"
  /\ cleanLaTeX (lit "<<<x>>>") = lit "$x$".
Proof.
  intros Hne Hgt Hpre. split; [|split; [apply isDisplayMath_criterion|]].
  - unfold convertDelimiters, replaceAll. rewrite convert_prefix by done.
    f_equal. rewrite span_converted by done.
    by rewrite convertFormula_wrapped, (convert_atStart true).
  - split; vm_compute; reflexivity.
Qed.

(** C8, refuted as stated. A span whose formula holds a [>] is not
    replaced at all. *)
Lemma span_with_greater_than_kept :
  cleanLaTeX (lit "<<<a>b>>>") = lit "<<<a>b>>>".
Proof. vm_compute. reflexivity. Qed.

(** A short equation inside a sentence. *)
Lemma formula_span_witness :
  (lit "1+1=2" <> [] /\ (62 ∉ lit "1+1=2") /\ (60 ∉ lit "So "))
  /\ convertDelimiters (lit "So " ++ lit "<<<" ++ lit "1+1=2" ++ lit ">>>" ++ lit ".")
     = lit "So $1+1=2$.".
Proof.
  assert (H1 : lit "1+1=2" <> []) by discriminate.
  assert (H2 : (62 ∉ lit "1+1=2")) by (apply (bool_decide_unpack _); vm_compute; exact I).
  assert (H3 : (60 ∉ lit "So ")) by (apply (bool_decide_unpack _); vm_compute; exact I).
  split; [done|].
  destruct (formula_span_converted (lit "So ") (lit "1+1=2") (lit ".") H1 H2 H3) as [H _].
  rewrite H. vm_compute. reflexivity.
Defined.

(** *** Occurrences *)

Lemma startsWith_extend p a b : startsWith p a = true -> startsWith p (a ++ b) = true.
Proof.
  revert a. induction p as [|c p IH]; intros a; [done|].
  destruct a as [|x a]; [done|]. cbn. rewrite !andb_true_iff. intros [? ?]. auto.
Qed.

Lemma startsWithCI_extend p a b :
  startsWithCI p a = true -> startsWithCI p (a ++ b) = true.
Proof.
  revert a. induction p as [|c p IH]; intros a; [done|].
  destruct a as [|x a]; [done|]. cbn. rewrite !andb_true_iff. intros [? ?]. auto.
Qed.

(** [includes] fails exactly when the pattern starts nowhere. *)
Lemma includes_false p s :
  includes p s = false <-> forall i, startsWith p (drop i s) = false.
Proof.
  unfold includes. induction s as [|c s IH].
  - cbn. destruct (startsWith p []) eqn:E; split; try done.
    + intros H. specialize (H 0%nat). cbn in H. congruence.
    + intros _ i. by rewrite drop_nil.
  - cbn [indexOf]. destruct (startsWith p (c :: s)) eqn:E.
    + split; [done|]. intros H. specialize (H 0%nat). cbn in H. congruence.
    + destruct (indexOf p s) as [n|] eqn:En; cbn.
      * split; [done|]. intros H.
        assert (forall i, startsWith p (drop i s) = false) as H' by (intros i; apply (H (S i))).
        apply IH in H'. done.
      * split; [|done]. intros _ [|i]; [done|]. cbn. by apply IH.
Qed.

Lemma includes_drop p s i : includes p s = false -> includes p (drop i s) = false.
Proof.
  rewrite !includes_false. intros H j. rewrite drop_drop. apply H.
Qed.

Lemma includes_app_r p a b : includes p (a ++ b) = false -> includes p b = false.
Proof.
  intros H. apply (includes_drop _ _ (length a)) in H. by rewrite drop_app_length in H.
Qed.

Lemma includes_app_l p a b : includes p (a ++ b) = false -> includes p a = false.
Proof.
  rewrite !includes_false. intros H i.
  destruct (startsWith p (drop i a)) eqn:E; [|done].
  destruct (decide (i <= length a)%nat) as [Hi|Hi].
  - specialize (H i). rewrite drop_app_le in H by done.
    apply (startsWith_extend _ _ b) in E. congruence.
  - rewrite drop_ge in E by lia. specialize (H (length a + length b)%nat).
    rewrite drop_ge in H by (rewrite length_app; lia). congruence.
Qed.

Lemma mentionsRole_false s :
  mentionsRole s = false <-> forall i, startsWithCI (lit "assistant:") (drop i s) = false.
Proof.
  induction s as [|c s IH].
  - cbn. split; [|done]. intros _ i. by rewrite drop_nil.
  - cbn [mentionsRole]. rewrite orb_false_iff, IH. split.
    + intros [H0 H] [|i]; [done|apply H].
    + intros H. split; [apply (H 0%nat)|]. intros i. apply (H (S i)).
Qed.

Lemma mentionsRole_app_r a b : mentionsRole (a ++ b) = false -> mentionsRole b = false.
Proof.
  rewrite !mentionsRole_false. intros H i. specialize (H (length a + i)%nat).
  by rewrite drop_app_add in H.
Qed.

Lemma mentionsRole_app_l a b : mentionsRole (a ++ b) = false -> mentionsRole a = false.
Proof.
  rewrite !mentionsRole_false. intros H i.
  destruct (startsWithCI (lit "assistant:") (drop i a)) eqn:E; [|done].
  destruct (decide (i <= length a)%nat) as [Hi|Hi].
  - specialize (H i). rewrite drop_app_le in H by done.
    apply (startsWithCI_extend _ _ b) in E. congruence.
  - rewrite drop_ge in E by lia. done.
Qed.

(** The trimmed text lies inside the text. *)
Lemma includes_trim p s : includes p s = false -> includes p (trim s) = false.
Proof.
  destruct (trim_split s) as (l & r & _ & _ & Hs & _). intros H.
  rewrite Hs in H. by apply includes_app_r, includes_app_l in H.
Qed.

Lemma mentionsRole_trim s : mentionsRole s = false -> mentionsRole (trim s) = false.
Proof.
  destruct (trim_split s) as (l & r & _ & _ & Hs & _). intros H.
  rewrite Hs in H. by apply mentionsRole_app_r, mentionsRole_app_l in H.
Qed.

(** *** Where the patterns can match *)

Lemma matchFormula_needs b s r :
  matchFormula b s = Some r -> startsWith (lit "<<<") s = true.
Proof. unfold matchFormula. by destruct (startsWith _ s). Qed.

Lemma matchDisplaySingle_needs b s r :
  matchDisplaySingle b s = Some r -> startsWith (lit "$$") s = true.
Proof. unfold matchDisplaySingle. by destruct (startsWith _ s). Qed.

Lemma matchNested_needs b s r :
  matchNested b s = Some r -> startsWith (lit "$$") s = true.
Proof. unfold matchNested. by destruct (startsWith _ s). Qed.

Lemma matchSingleVariable_needs b s r :
  matchSingleVariable b s = Some r -> startsWith (lit "$$") s = true.
Proof.
  unfold matchSingleVariable.
  destruct s as [|d1 [|d2 [|v [|d3 [|d4 s]]]]]; try done.
  destruct (d1 =? 36) eqn:E1; [|done]. destruct (d2 =? 36) eqn:E2; [|done].
  intros _. apply N.eqb_eq in E1, E2. by subst.
Qed.

Lemma matchNewlinePrefix_needs b s r :
  matchNewlinePrefix b s = Some r ->
  startsWithCI (lit "assistant:") (drop 1 s) = true.
Proof.
  unfold matchNewlinePrefix, matchRolePrefix. destruct s as [|c s]; [done|].
  destruct (c =? 10); [|done]. cbn [drop]. rewrite ?drop_0.
  by destruct (startsWithCI _ s).
Qed.

(** A match of pattern 2 ends with two dollars. *)
Lemma matchInlineDouble_needs b s r :
  matchInlineDouble b s = Some r -> includes (lit "$$") s = true.
Proof.
  assert (Htail : forall s1 d s2,
    s1 = d :: s2 ->
    JS.startsWith (lit "$$") (run notDollar s2).2 = true ->
    includes (lit "$$") s1 = true).
  { intros s1 d s2 -> Hst.
    destruct (includes (lit "$$") (d :: s2)) eqn:E; [done|].
    rewrite includes_false in E.
    specialize (E (S (length (run notDollar s2).1))). cbn [drop] in E.
    rewrite <- (run_app notDollar s2) in E at 2.
    rewrite drop_app_length in E. congruence. }
  unfold matchInlineDouble. destruct s as [|c s1]; [done|].
  destruct (notDollar c).
  - destruct s1 as [|d s2].
    + destruct b; [|done]. cbn. destruct (c =? 36); done.
    + destruct (run notDollar s2) as [content rest] eqn:Hrun.
      destruct ((d =? 36) && truthy content && startsWith (lit "$$") rest) eqn:E.
      * intros _. apply andb_true_iff in E as [_ E].
        destruct (includes (lit "$$") (c :: d :: s2)) eqn:Ei; [done|].
        apply (includes_drop _ _ 1) in Ei. cbn [drop] in Ei. rewrite ?drop_0 in Ei.
        rewrite (Htail (d :: s2) d s2 eq_refl) in Ei; [done|]. by rewrite Hrun.
      * destruct b; [|done].
        destruct (run notDollar (d :: s2)) as [content' rest'] eqn:Hrun'.
        destruct ((c =? 36) && truthy content' && startsWith (lit "$$") rest') eqn:E';
          [|done].
        intros _. apply andb_true_iff in E' as [_ E'].
        apply (Htail (c :: d :: s2) c (d :: s2) eq_refl). by rewrite Hrun'.
  - destruct b; [|done]. destruct s1 as [|d s2]; [by destruct (c =? 36)|].
    destruct (run notDollar (d :: s2)) as [content' rest'] eqn:Hrun'.
    destruct ((c =? 36) && truthy content' && startsWith (lit "$$") rest') eqn:E';
      [|done].
    intros _. apply andb_true_iff in E' as [_ E'].
    apply (Htail (c :: d :: s2) c (d :: s2) eq_refl). by rewrite Hrun'.
Qed.

(** *** The loop of pattern 3 *)

Lemma startsWith_length p s : startsWith p s = true -> (length p <= length s)%nat.
Proof.
  revert s. induction p as [|c p IH]; intros s; [cbn; lia|].
  destruct s as [|x s]; [done|]. cbn. rewrite andb_true_iff. intros [_ H].
  apply IH in H. lia.
Qed.

Lemma indexOf_Some p s i :
  indexOf p s = Some i -> startsWith p (drop i s) = true /\ (i + length p <= length s)%nat.
Proof.
  revert i. induction s as [|c s IH]; intros i.
  - cbn. destruct (startsWith p []) eqn:E; [|done]. intros [= <-].
    split; [done|]. apply startsWith_length in E. cbn in *. lia.
  - cbn [indexOf]. destruct (startsWith p (c :: s)) eqn:E.
    + intros [= <-]. split; [done|]. apply startsWith_length in E. cbn in *. lia.
    + destruct (indexOf p s) as [n|] eqn:En; [|done]. cbn. intros [= <-].
      destruct (IH n eq_refl) as [H1 H2]. split; [done|]. cbn. lia.
Qed.

Lemma indexOf_None p s : indexOf p s = None <-> includes p s = false.
Proof. unfold includes. by destruct (indexOf p s). Qed.

Lemma indexOfFrom_Some p s from i :
  p <> [] -> indexOfFrom p s from = Some i ->
  (from <= i)%nat /\ (i + length p <= length s)%nat
  /\ startsWith p (drop i s) = true.
Proof.
  intros Hp. unfold indexOfFrom.
  destruct (indexOf p (drop from s)) as [n|] eqn:E; [|done].
  cbn. intros [= <-]. apply indexOf_Some in E as [Hst Hlen].
  rewrite length_drop in Hlen. rewrite drop_drop in Hst.
  assert (0 < length p)%nat by (destruct p; [done|cbn; lia]).
  rewrite Nat.min_l by lia. repeat split; [lia|lia|done].
Qed.

Lemma indexOfFrom_None p s from :
  includes p s = false -> indexOfFrom p s from = None.
Proof.
  intros H. unfold indexOfFrom.
  apply (includes_drop _ _ from), indexOf_None in H. by rewrite H.
Qed.

Lemma contentEnd_le r n : contentEnd r = Some n -> (n <= length r)%nat.
Proof.
  revert n. induction r as [|d r IH]; intros n; cbn.
  - intros [= <-]. lia.
  - destruct (isBoundary d); [intros [= <-]; lia|].
    destruct (isContent d); [|done].
    destruct (contentEnd r) as [m|]; [|done]. cbn. intros [= <-].
    specialize (IH m eq_refl). lia.
Qed.

Lemma contentMatch_length afterDollar content :
  contentMatch afterDollar = Some content ->
  (1 <= length content <= length afterDollar)%nat.
Proof.
  unfold contentMatch. destruct afterDollar as [|c r]; [done|].
  destruct (isContent c); [|done].
  destruct (contentEnd r) as [n|] eqn:E; [|done]. cbn [fmap option_fmap option_map].
  intros [= <-]. apply contentEnd_le in E.
  cbn [take length]. rewrite length_take. lia.
Qed.

(** The loop ends: the distance from [searchFrom] to the end of the text
    shrinks at each turn, so the fuel of [closeUnclosed] is enough. *)
Lemma closeLoop_total fuel cleaned searchFrom :
  (length cleaned - searchFrom < fuel)%nat ->
  is_Some (closeLoop fuel cleaned searchFrom).
Proof.
  revert cleaned searchFrom.
  induction fuel as [|fuel IH]; intros cleaned searchFrom Hfuel; [lia|].
  cbn [closeLoop].
  destruct (indexOfFrom (lit "$$") cleaned searchFrom) as [dollarIndex|] eqn:Hi; [|eauto].
  apply indexOfFrom_Some in Hi as (Hfrom & Hfit & _); [|done].
  change (length (lit "$$")) with 2%nat in Hfit.
  destruct (startsWith _ _); [apply IH; lia|].
  destruct (indexOf (lit "$") _) as [nextDollar|].
  - destruct (_ && _ && negb _); [apply IH; lia|].
    destruct (_ && _); apply IH; lia.
  - destruct (contentMatch _) as [content|] eqn:Hc; [|eauto].
    apply contentMatch_length in Hc. unfold substringFrom in Hc.
    rewrite length_drop in Hc. apply IH.
    unfold substring, substringFrom. lits. cbn [Nat.min Nat.max].
    rewrite !length_app, length_take, !length_drop. cbn [length]. lia.
Qed.

Lemma closeUnclosed_spec cleaned :
  closeLoop (S (length cleaned)) cleaned 0 = Some (closeUnclosed cleaned).
Proof.
  unfold closeUnclosed.
  destruct (closeLoop_total (S (length cleaned)) cleaned 0) as [r Hr]; [lia|].
  by rewrite Hr.
Qed.

Lemma closeUnclosed_id s : includes (lit "$$") s = false -> closeUnclosed s = s.
Proof.
  intros H. unfold closeUnclosed. cbn [closeLoop].
  by rewrite indexOfFrom_None.
Qed.

(** *** Texts that are only trimmed *)

Lemma stripRolePrefix_id s :
  startsWithCI (lit "assistant:") s = false -> stripRolePrefix s = s.
Proof. intros H. unfold stripRolePrefix, matchRolePrefix. by rewrite H. Qed.

Lemma includes_startsWith p s : includes p s = false -> startsWith p s = false.
Proof. rewrite includes_false. intros H. apply (H 0%nat). Qed.

Lemma not_Some_None {A} (o : option A) : (forall r, o <> Some r) -> o = None.
Proof. destruct o; [|done]. intros H. by destruct (H a). Qed.

(** A text with no [<<<], no two dollars in a row and no role prefix
    goes through every step unchanged, up to the final [trim]. *)
Lemma cleanLaTeX_plain t :
  includes (lit "$$") t = false ->
  includes (lit "<<<") t = false ->
  mentionsRole t = false ->
  cleanLaTeX t = trim t.
Proof.
  intros Hd Hl Hr. unfold cleanLaTeX, convertDelimiters.
  rewrite (replaceAll_id matchFormula t).
  2:{ intros b i. apply not_Some_None. intros r Hm.
      apply matchFormula_needs in Hm.
      apply (includes_drop _ _ i), includes_startsWith in Hl. congruence. }
  rewrite stripRolePrefix_id.
  2:{ rewrite mentionsRole_false in Hr. apply (Hr 0%nat). }
  rewrite (replaceAll_id matchNewlinePrefix t).
  2:{ intros b i. apply not_Some_None. intros r Hm.
      apply matchNewlinePrefix_needs in Hm. rewrite drop_drop in Hm.
      rewrite mentionsRole_false in Hr. specialize (Hr (i + 1)%nat). congruence. }
  rewrite (replaceAll_id matchDisplaySingle t).
  2:{ intros b i. apply not_Some_None. intros r Hm.
      apply matchDisplaySingle_needs in Hm.
      apply (includes_drop _ _ i), includes_startsWith in Hd. congruence. }
  rewrite (replaceAll_id matchInlineDouble t).
  2:{ intros b i. apply not_Some_None. intros r Hm.
      apply matchInlineDouble_needs in Hm.
      apply (includes_drop _ _ i) in Hd. congruence. }
  rewrite closeUnclosed_id by done.
  rewrite (replaceAll_id matchNested t).
  2:{ intros b i. apply not_Some_None. intros r Hm.
      apply matchNested_needs in Hm.
      apply (includes_drop _ _ i), includes_startsWith in Hd. congruence. }
  rewrite (replaceAll_id matchSingleVariable t).
  2:{ intros b i. apply not_Some_None. intros r Hm.
      apply matchSingleVariable_needs in Hm.
      apply (includes_drop _ _ i), includes_startsWith in Hd. congruence. }
  done.
Qed.

Lemma cleanLaTeX_plain_idempotent t :
  includes (lit "$$") t = false ->
  includes (lit "<<<") t = false ->
  mentionsRole t = false ->
  cleanLaTeX (cleanLaTeX t) = cleanLaTeX t.
Proof.
  intros Hd Hl Hr. rewrite (cleanLaTeX_plain t) by done.
  rewrite cleanLaTeX_plain; [apply trim_idemp| | |].
  - by apply includes_trim.
  - by apply includes_trim.
  - by apply mentionsRole_trim.
Qed.

(** *** A formula between delimiters *)

Lemma startsWithCI_before_dollar p a r :
  36 ∉ p -> startsWithCI p (a ++ 36 :: r) = true -> startsWithCI p a = true.
Proof.
  revert a. induction p as [|c p IH]; intros a Hp; [done|].
  apply not_elem_of_cons in Hp as [Hc Hp].
  destruct a as [|x a]; cbn.
  - rewrite andb_true_iff, N.eqb_eq. intros [-> _]. done.
  - rewrite !andb_true_iff. intros [? ?]. split; [done|]. by apply IH.
Qed.

Lemma role_has_no_dollar : 36 ∉ lit "assistant:".
Proof. apply (bool_decide_unpack _). vm_compute. exact I. Qed.

Lemma mentionsRole_dollar_l s : mentionsRole s = false -> mentionsRole (36 :: s) = false.
Proof. intros H. cbn [mentionsRole]. by rewrite H. Qed.

Lemma mentionsRole_dollar_r s r :
  mentionsRole s = false -> mentionsRole r = false -> mentionsRole (s ++ 36 :: r) = false.
Proof.
  intros Hs Hr. induction s as [|c s IH].
  - by apply mentionsRole_dollar_l.
  - cbn [mentionsRole app] in *. apply orb_false_iff in Hs as [H1 H2].
    rewrite IH by done. rewrite orb_false_r.
    destruct (startsWithCI _ (c :: s ++ 36 :: r)) eqn:E; [|done].
    apply (startsWithCI_before_dollar _ (c :: s)) in E; [congruence|].
    apply role_has_no_dollar.
Qed.

Lemma elem_of_drop_inv (x : N) i s : x ∈ drop i s -> x ∈ s.
Proof. intros H. rewrite <- (take_drop i s). apply elem_of_app. by right. Qed.

Lemma includes_lt3 s : 60 ∉ s -> includes (lit "<<<") s = false.
Proof.
  intros H. apply includes_false. intros i.
  destruct (drop i s) as [|c r] eqn:E; [done|].
  assert (c ∈ s) as Hc.
  { apply (elem_of_drop_inv _ i). rewrite E. left. }
  destruct (startsWith (lit "<<<") (c :: r)) eqn:Es; [|done].
  apply startsWith_head in Es. vm_compute in Es. by subst.
Qed.

Lemma includes_cons p c s :
  includes p (c :: s) = startsWith p (c :: s) || includes p s.
Proof.
  unfold includes. cbn [indexOf]. destruct (startsWith p (c :: s)); [done|].
  by destruct (indexOf p s).
Qed.

Lemma startsWith_ne p0 p c s : c <> p0 -> startsWith (p0 :: p) (c :: s) = false.
Proof.
  intros H. destruct (startsWith (p0 :: p) (c :: s)) eqn:E; [|done].
  by apply startsWith_head in E.
Qed.

(** No two dollars in a row in a formula between single dollars. *)
Lemma includes_dd_inline g :
  g <> [] -> 36 ∉ g -> includes [36; 36] (36 :: g ++ [36]) = false.
Proof.
  intros Hne Hg.
  assert (Hin : forall a, 36 ∉ a -> includes [36; 36] (a ++ [36]) = false).
  { induction a as [|c a IH]; intros Ha; [done|].
    apply not_elem_of_cons in Ha as [Hc Ha]. cbn [app].
    rewrite includes_cons, startsWith_ne by done. by apply IH. }
  rewrite includes_cons, (Hin g Hg), orb_false_r.
  destruct g as [|c g]; [done|]. apply not_elem_of_cons in Hg as [Hc _].
  cbn [app startsWith].
  assert ((36 =? c) = false) as -> by (apply N.eqb_neq; congruence).
  by rewrite andb_false_r.
Qed.

Lemma tight_dollars a g b :
  tight (36 :: a ++ g ++ b ++ [36]).
Proof.
  exists 36, (a ++ g ++ b), 36. split; [done|]. split; [done|]. right.
  by rewrite <- !app_assoc.
Qed.

(** The suffixes of a formula between double dollars. *)
Lemma block_suffix g i :
  36 ∉ g ->
  drop i (36 :: 36 :: g ++ [36; 36]) = 36 :: 36 :: g ++ [36; 36]
  \/ drop i (36 :: 36 :: g ++ [36; 36]) = 36 :: g ++ [36; 36]
  \/ (exists c g', c <> 36 /\ (c ∈ g) /\ (forall x, x ∈ g' -> x ∈ g)
                   /\ drop i (36 :: 36 :: g ++ [36; 36]) = c :: g' ++ [36; 36])
     \/ drop i (36 :: 36 :: g ++ [36; 36]) = [36; 36]
     \/ drop i (36 :: 36 :: g ++ [36; 36]) = [36]
     \/ drop i (36 :: 36 :: g ++ [36; 36]) = [].
Proof.
  intros Hg.
  destruct i as [|[|i]]; [by left|by right; left|]. cbn [drop].
  destruct (decide (i < length g)%nat) as [Hi|Hi].
  - right; right; left. rewrite drop_app_le by lia.
    destruct (drop i g) as [|c g'] eqn:E.
    { apply (f_equal length) in E. rewrite length_drop in E. cbn in E. lia. }
    assert (forall x, x ∈ c :: g' -> x ∈ g) as Hsub.
    { intros x Hx. rewrite <- E in Hx. by apply elem_of_drop_inv in Hx. }
    exists c, g'. split; [|split; [|split; [|done]]].
    + intros ->. apply Hg, Hsub. left.
    + apply Hsub. left.
    + intros x Hx. apply Hsub. by right.
  - rewrite drop_app_ge by lia.
    destruct (i - length g)%nat as [|[|k]]; cbn.
    + right; right; right; by left.
    + right; right; right; right; by left.
    + rewrite drop_nil. by right; right; right; right; right.
Qed.

(** *** The patterns on a formula between double dollars *)

Lemma eqb_dollar_ne c : c <> 36 -> (c =? 36) = false /\ (36 =? c) = false.
Proof. intros H. split; apply N.eqb_neq; congruence. Qed.

Lemma startsWith_dd_other c r : c <> 36 -> startsWith (lit "$$") (c :: r) = false.
Proof. intros H. by apply startsWith_ne. Qed.

Lemma startsWith_dd_single c r : c <> 36 -> startsWith (lit "$$") (36 :: c :: r) = false.
Proof.
  intros H. change (startsWith (lit "$$") (36 :: c :: r)) with ((36 =? c) && true).
  by rewrite (proj2 (eqb_dollar_ne c H)).
Qed.

Lemma notDollar_other c : c <> 36 -> notDollar c = true.
Proof. intros H. unfold notDollar. by rewrite (proj1 (eqb_dollar_ne c H)). Qed.

Lemma includes_short p s : (length s < length p)%nat -> includes p s = false.
Proof.
  intros H. apply includes_false. intros i.
  destruct (startsWith p (drop i s)) eqn:E; [|done].
  apply startsWith_length in E. rewrite length_drop in E. lia.
Qed.

(** One unit alone is display math only if it is a line feed. *)
Lemma isDisplayMath_single c : isDisplayMath [c] = true -> c = 10.
Proof.
  unfold isDisplayMath.
  rewrite !(includes_short (lit _) [c]) by (cbn; lia).
  cbn [orb andb length Nat.ltb Nat.leb]. rewrite andb_false_r. cbn [orb].
  rewrite orb_false_r, includes_cons.
  change (startsWith [10] [c]) with ((10 =? c) && true).
  rewrite andb_true_r. change (includes [10] []) with false. rewrite orb_false_r.
  intros H. apply N.eqb_eq in H. done.
Qed.

Section Block.
Variable g : jsstring.
Hypothesis g_nonempty : g <> [].
Hypothesis g_plain : 36 ∉ g.

Lemma g_head : exists c g0, g = c :: g0 /\ c <> 36 /\ 36 ∉ g0.
Proof.
  destruct g as [|c g0]; [done|]. exists c, g0.
  apply not_elem_of_cons in g_plain as [? ?]. split; [done|]. split; congruence.
Qed.

Lemma run_block r : run notDollar (g ++ 36 :: r) = (g, 36 :: r).
Proof. apply run_stop; [by apply notDollar_all|done]. Qed.

Lemma run_inside g' r :
  (forall x, x ∈ g' -> x ∈ g) -> run notDollar (g' ++ 36 :: r) = (g', 36 :: r).
Proof.
  intros Hsub. apply run_stop; [|done]. apply notDollar_all.
  intros H. by apply g_plain, Hsub.
Qed.

Lemma matchDisplaySingle_block b i :
  matchDisplaySingle b (drop i (36 :: 36 :: g ++ [36; 36])) = None.
Proof.
  destruct g_head as (c0 & g0 & Hg & Hc0 & Hg0).
  destruct (block_suffix g i g_plain)
    as [-> | [-> | [(c & g' & Hc & _ & Hsub & ->) | [-> | [-> | ->]]]]]; try done.
  - unfold matchDisplaySingle.
    change (startsWith (lit "$$") (36 :: 36 :: g ++ [36; 36])) with true.
    change (drop 2 (36 :: 36 :: g ++ [36; 36])) with (g ++ [36; 36]).
    rewrite run_block. by rewrite truthy_ne.
  - unfold matchDisplaySingle. rewrite Hg. cbn [app].
    by rewrite startsWith_dd_single.
  - unfold matchDisplaySingle. by rewrite startsWith_dd_other.
Qed.

Lemma matchNested_block b i :
  matchNested b (drop i (36 :: 36 :: g ++ [36; 36])) = None.
Proof.
  destruct g_head as (c0 & g0 & Hg & Hc0 & Hg0).
  destruct (block_suffix g i g_plain)
    as [-> | [-> | [(c & g' & Hc & _ & Hsub & ->) | [-> | [-> | ->]]]]]; try done.
  - unfold matchNested.
    change (startsWith (lit "$$") (36 :: 36 :: g ++ [36; 36])) with true.
    change (drop 2 (36 :: 36 :: g ++ [36; 36])) with (g ++ [36; 36]).
    by rewrite run_block.
  - unfold matchNested. rewrite Hg. cbn [app].
    by rewrite startsWith_dd_single.
  - unfold matchNested. by rewrite startsWith_dd_other.
Qed.

Lemma matchInlineDouble_block i :
  matchInlineDouble (bool_decide (i = 0%nat)) (drop i (36 :: 36 :: g ++ [36; 36])) = None.
Proof.
  destruct g_head as (c0 & g0 & Hg & Hc0 & Hg0).
  destruct i as [|i].
  - reflexivity.
  - rewrite bool_decide_false by done.
    destruct (block_suffix g (S i) g_plain)
      as [H | [-> | [(c & g' & Hc & _ & Hsub & ->) | [-> | [-> | ->]]]]]; try done.
    + exfalso. apply (f_equal length) in H. rewrite length_drop in H.
      cbn [length] in H. lia.
    + unfold matchInlineDouble. rewrite (notDollar_other c Hc).
      destruct g' as [|d g'']; cbn [app].
      * reflexivity.
      * assert (d <> 36) as Hd.
        { intros ->. apply g_plain, Hsub. left. }
        rewrite (proj1 (eqb_dollar_ne d Hd)). by destruct (run notDollar _).
Qed.

Lemma matchSingleVariable_block b i :
  isDisplayMath g = true -> tight g ->
  matchSingleVariable b (drop i (36 :: 36 :: g ++ [36; 36])) = None.
Proof.
  intros Hdisp Htight.
  destruct g_head as (c0 & g0 & Hg & Hc0 & Hg0).
  destruct (block_suffix g i g_plain)
    as [-> | [-> | [(c & g' & Hc & _ & Hsub & ->) | [-> | [-> | ->]]]]]; try done.
  - rewrite Hg. destruct g0 as [|c1 g1].
    + (* a single unit can only be display math if it is a line feed *)
      cbn [app matchSingleVariable].
      destruct ((97 <=? c0) && (c0 <=? 122)) eqn:E.
      * exfalso. apply andb_true_iff in E as [E1 E2].
        apply N.leb_le in E1, E2. rewrite Hg in Hdisp.
        apply isDisplayMath_single in Hdisp. lia.
      * destruct (97 <=? c0), (c0 <=? 122); try done; reflexivity.
    + apply not_elem_of_cons in Hg0 as [Hc1 _].
      assert ((c1 =? 36) = false) as Hc1' by (apply N.eqb_neq; congruence).
      destruct g1; cbn [app matchSingleVariable]; by rewrite Hc1', !andb_false_r.
  - rewrite Hg. cbn [app]. unfold matchSingleVariable.
    destruct (g0 ++ [36; 36]) as [|? [|? [|? ?]]];
      rewrite ?(proj1 (eqb_dollar_ne c0 Hc0)), ?andb_false_r; done.
  - unfold matchSingleVariable.
    destruct (g' ++ [36; 36]) as [|? [|? [|? [|? ?]]]];
      rewrite ?(proj1 (eqb_dollar_ne c Hc)); done.
Qed.

Lemma indexOfFrom_here p s : startsWith p s = true -> indexOfFrom p s 0 = Some 0%nat.
Proof.
  intros H. unfold indexOfFrom. rewrite drop_0.
  destruct s; cbn [indexOf]; by rewrite H.
Qed.

Lemma indexOfFrom_end p s : p <> [] -> indexOfFrom p s (length s) = None.
Proof. intros H. unfold indexOfFrom. rewrite drop_all. by destruct p. Qed.

Lemma indexOf_dollar r : indexOf (lit "$") (g ++ 36 :: r) = Some (length g).
Proof.
  clear g_nonempty. lits. induction g as [|c a IH]; [done|].
  apply not_elem_of_cons in g_plain as [Hc Ha].
  cbn [app indexOf length]. rewrite startsWith_ne by congruence.
  by rewrite (IH Ha).
Qed.

(** The loop finds the opening of the block, sees it closed, and leaves
    the text as it is. *)
Lemma closeLoop_block n :
  closeLoop (S (S n)) (36 :: 36 :: g ++ [36; 36]) 0 = Some (36 :: 36 :: g ++ [36; 36]).
Proof.
  destruct g_head as (c0 & g0 & Hg & Hc0 & Hg0).
  cbn [closeLoop]. rewrite indexOfFrom_here by done.
  change (substringFrom (0 + 2) (36 :: 36 :: g ++ [36; 36])) with (g ++ 36 :: [36]).
  assert (startsWith (lit "$$") (g ++ 36 :: [36]) = false) as ->.
  { rewrite Hg. cbn [app]. by apply startsWith_dd_other. }
  rewrite indexOf_dollar.
  assert ((g ++ 36 :: [36]) !! (length g + 1)%nat = Some 36) as ->.
  { rewrite lookup_app_r by lia. by replace (length g + 1 - length g)%nat with 1%nat by lia. }
  rewrite N.eqb_refl. cbn [negb]. rewrite andb_false_r, andb_true_r.
  assert ((length g <? length (g ++ 36%N :: [36%N]) - 1)%nat = true) as ->.
  { apply Nat.ltb_lt. rewrite length_app. cbn [length]. lia. }
  replace (0 + 2 + length g + 2)%nat
    with (length (36%N :: 36%N :: g ++ [36%N; 36%N]))
    by (cbn [length]; rewrite length_app; cbn [length]; lia).
  by rewrite indexOfFrom_end.
Qed.

Lemma closeUnclosed_block :
  closeUnclosed (36 :: 36 :: g ++ [36; 36]) = 36 :: 36 :: g ++ [36; 36].
Proof. unfold closeUnclosed. cbn [length]. by rewrite closeLoop_block. Qed.

Hypothesis g_no_lt : 60 ∉ g.
Hypothesis g_no_role : mentionsRole g = false.
Hypothesis g_tight : tight g.

Lemma block_no_lt : 60 ∉ 36 :: 36 :: g ++ [36; 36].
Proof.
  rewrite !not_elem_of_cons, not_elem_of_app, !not_elem_of_cons.
  repeat split; try done. apply not_elem_of_nil.
Qed.

Lemma inline_no_lt : 60 ∉ 36 :: g ++ [36].
Proof.
  rewrite !not_elem_of_cons, not_elem_of_app, !not_elem_of_cons.
  repeat split; try done. apply not_elem_of_nil.
Qed.

Lemma block_no_role : mentionsRole (36 :: 36 :: g ++ [36; 36]) = false.
Proof.
  do 2 apply mentionsRole_dollar_l. by apply mentionsRole_dollar_r.
Qed.

Lemma inline_no_role : mentionsRole (36 :: g ++ [36]) = false.
Proof. apply mentionsRole_dollar_l. by apply mentionsRole_dollar_r. Qed.

(** A formula between single dollars is left as it is. *)
Lemma cleanLaTeX_inline : cleanLaTeX (36 :: g ++ [36]) = 36 :: g ++ [36].
Proof.
  rewrite cleanLaTeX_plain.
  - apply trim_tight. apply (tight_dollars [] g []).
  - by apply includes_dd_inline.
  - apply includes_lt3, inline_no_lt.
  - apply inline_no_role.
Qed.

(** So is a formula between double dollars that is display math. *)
Lemma cleanLaTeX_block :
  isDisplayMath g = true ->
  cleanLaTeX (36 :: 36 :: g ++ [36; 36]) = 36 :: 36 :: g ++ [36; 36].
Proof.
  intros Hdisp. unfold cleanLaTeX, convertDelimiters.
  pose proof block_no_role as Hr. pose proof (includes_lt3 _ block_no_lt) as Hl.
  set (y := 36 :: 36 :: g ++ [36; 36]) in *.
  rewrite (replaceAll_id matchFormula y).
  2:{ intros b i. apply not_Some_None. intros r Hm.
      apply matchFormula_needs in Hm.
      apply (includes_drop _ _ i), includes_startsWith in Hl. congruence. }
  rewrite stripRolePrefix_id.
  2:{ rewrite mentionsRole_false in Hr. apply (Hr 0%nat). }
  rewrite (replaceAll_id matchNewlinePrefix y).
  2:{ intros b i. apply not_Some_None. intros r Hm.
      apply matchNewlinePrefix_needs in Hm. rewrite drop_drop in Hm.
      rewrite mentionsRole_false in Hr. specialize (Hr (i + 1)%nat). congruence. }
  rewrite (replaceAll_id matchDisplaySingle y)
    by (intros b i; apply matchDisplaySingle_block).
  assert (replaceAll matchInlineDouble y = y) as ->.
  { apply replaceFrom_id; [apply (matchInlineDouble_block 0)|].
    intros i. apply (matchInlineDouble_block (S i)). }
  unfold y at 1. rewrite closeUnclosed_block. fold y.
  rewrite (replaceAll_id matchNested y) by (intros b i; apply matchNested_block).
  rewrite (replaceAll_id matchSingleVariable y)
    by (intros b i; by apply matchSingleVariable_block).
  apply trim_tight. apply (tight_dollars [36] g [36]).
Qed.

End Block.

(** The normalizer after step 0. *)
Lemma cleanLaTeX_convert t y :
  convertDelimiters t = y -> convertDelimiters y = y -> cleanLaTeX t = cleanLaTeX y.
Proof. intros H1 H2. unfold cleanLaTeX. by rewrite H1, H2. Qed.

Lemma convertDelimiters_id y : 60 ∉ y -> convertDelimiters y = y.
Proof.
  intros H. apply replaceAll_id. intros b i. apply not_Some_None. intros r Hm.
  apply matchFormula_needs in Hm.
  apply includes_lt3, (includes_drop _ _ i), includes_startsWith in H. congruence.
Qed.

Lemma convertDelimiters_span formula :
  formula <> [] -> 62 ∉ formula ->
  convertDelimiters (lit "<<<" ++ formula ++ lit ">>>") = wrapped formula.
Proof.
  intros Hne Hgt. unfold convertDelimiters, replaceAll.
  rewrite convert_atStart. rewrite <- (app_nil_r (lit ">>>")).
  rewrite span_converted by done. cbn [replaceFrom]. by rewrite app_nil_r.
Qed.

Lemma trim_elem (x : N) s : x ∉ s -> x ∉ trim s.
Proof.
  destruct (trim_split s) as (l & r & _ & _ & Hs & _). intros H Hx.
  apply H. rewrite Hs. rewrite !elem_of_app. auto.
Qed.

(** One span of a plain formula is wrapped once, and the wrapped formula
    is a fixed point. *)
Lemma cleanLaTeX_span formula :
  trim formula <> [] -> 36 ∉ formula -> 60 ∉ formula -> 62 ∉ formula ->
  mentionsRole formula = false ->
  cleanLaTeX (lit "<<<" ++ formula ++ lit ">>>") = wrapped formula
  /\ cleanLaTeX (wrapped formula) = wrapped formula.
Proof.
  intros Hne Hd Hl Hg Hr.
  assert (formula <> []) as Hne' by (by intros ->).
  assert (tight (trim formula)) as Ht.
  { by destruct (trim_split formula) as (_ & _ & _ & _ & _ & [?|?]). }
  assert (cleanLaTeX (wrapped formula) = wrapped formula) as Hfix.
  { unfold wrapped. destruct (isDisplayMath (trim formula)) eqn:E.
    - apply cleanLaTeX_block; try done.
      + by apply trim_elem.
      + by apply trim_elem.
      + by apply mentionsRole_trim.
    - apply cleanLaTeX_inline; try done.
      + by apply trim_elem.
      + by apply trim_elem.
      + by apply mentionsRole_trim. }
  split; [|done]. transitivity (cleanLaTeX (wrapped formula)); [|done].
  apply cleanLaTeX_convert; [by apply convertDelimiters_span|].
  apply convertDelimiters_id. unfold wrapped.
  destruct (isDisplayMath (trim formula)).
  - apply block_no_lt. by apply trim_elem.
  - apply inline_no_lt. by apply trim_elem.
Qed.

(** C9, as amended. The normalizer is idempotent on every text with no
    [<<<], no two dollars in a row and no role prefix (such a text is only
    trimmed, so that inline math is not wrapped again), and on a text made
    of one span whose formula is not blank and has no dollar, no [<], no
    [>] and no role prefix (the span is wrapped once and the second pass
    leaves it as it is). *)
Theorem normalizer_fixed_points (t formula : jsstring) :
  (includes (lit "$$") t = false ->
   includes (lit "<<<") t = false ->
   mentionsRole t = false ->
   cleanLaTeX t = trim t /\ cleanLaTeX (cleanLaTeX t) = cleanLaTeX t)
  /\ (trim formula <> [] ->
      36 ∉ formula -> 60 ∉ formula -> 62 ∉ formula ->
      mentionsRole formula = false ->
      cleanLaTeX (lit "<<<" ++ formula ++ lit ">>>") = wrapped formula
      /\ cleanLaTeX (cleanLaTeX (lit "<<<" ++ formula ++ lit ">>>"))
         = cleanLaTeX (lit "<<<" ++ formula ++ lit ">>>")).
Proof.
  split.
  - intros Hd Hl Hr. split; [by apply cleanLaTeX_plain|].
    by apply cleanLaTeX_plain_idempotent.
  - intros Hne Hd Hl Hg Hr.
    destruct (cleanLaTeX_span formula Hne Hd Hl Hg Hr) as [H1 H2].
    split; [done|]. by rewrite H1, H2.
Qed.

(** C9, refuted as stated. A block formula followed by an inline one:
    the first pass leaves the inline formula with two dollars in front
    and one behind, and the second pass changes the text again. So does
    a role prefix written twice. *)
Lemma normalizer_not_idempotent :
  cleanLaTeX (lit "<<<\frac{1}{2}>>> and <<<x>>>") = lit "$$\frac{1}{2}$$ and $$x$"
  /\ cleanLaTeX (lit "$$\frac{1}{2}$$ and $$x$") = lit "$$\frac{1}{2}$$ and $x$"
  /\ cleanLaTeX (cleanLaTeX (lit "<<<\frac{1}{2}>>> and <<<x>>>"))
     <> cleanLaTeX (lit "<<<\frac{1}{2}>>> and <<<x>>>")
  /\ cleanLaTeX (lit "assistant: assistant: hi") = lit "assistant: hi"
  /\ cleanLaTeX (lit "assistant: hi") = lit "hi".
Proof.
  split; [vm_compute; reflexivity|]. split; [vm_compute; reflexivity|].
  split; [vm_compute; discriminate|]. split; vm_compute; reflexivity.
Qed.

(** A sentence with inline math, and one span of display math. *)
Lemma normalizer_fixed_points_witness :
  (includes (lit "$$") (lit " Take $x$ and $y$. ") = false
   /\ includes (lit "<<<") (lit " Take $x$ and $y$. ") = false
   /\ mentionsRole (lit " Take $x$ and $y$. ") = false
   /\ trim (lit " a^2+b^2=c^2+d^2+e^2 ") <> []
   /\ (36 ∉ lit " a^2+b^2=c^2+d^2+e^2 ")
   /\ (60 ∉ lit " a^2+b^2=c^2+d^2+e^2 ")
   /\ (62 ∉ lit " a^2+b^2=c^2+d^2+e^2 ")
   /\ mentionsRole (lit " a^2+b^2=c^2+d^2+e^2 ") = false)
  /\ cleanLaTeX (lit " Take $x$ and $y$. ") = lit "Take $x$ and $y$."
  /\ cleanLaTeX (lit "<<<" ++ lit " a^2+b^2=c^2+d^2+e^2 " ++ lit ">>>")
     = lit "$$a^2+b^2=c^2+d^2+e^2$$".
Proof.
  assert (H1 : includes (lit "$$") (lit " Take $x$ and $y$. ") = false)
    by (vm_compute; reflexivity).
  assert (H2 : includes (lit "<<<") (lit " Take $x$ and $y$. ") = false)
    by (vm_compute; reflexivity).
  assert (H3 : mentionsRole (lit " Take $x$ and $y$. ") = false)
    by (vm_compute; reflexivity).
  assert (H4 : trim (lit " a^2+b^2=c^2+d^2+e^2 ") <> []) by (vm_compute; discriminate).
  assert (H5 : (36 ∉ lit " a^2+b^2=c^2+d^2+e^2 "))
    by (apply (bool_decide_unpack _); vm_compute; exact I).
  assert (H6 : (60 ∉ lit " a^2+b^2=c^2+d^2+e^2 "))
    by (apply (bool_decide_unpack _); vm_compute; exact I).
  assert (H7 : (62 ∉ lit " a^2+b^2=c^2+d^2+e^2 "))
    by (apply (bool_decide_unpack _); vm_compute; exact I).
  assert (H8 : mentionsRole (lit " a^2+b^2=c^2+d^2+e^2 ") = false)
    by (vm_compute; reflexivity).
  split; [done|].
  destruct (normalizer_fixed_points (lit " Take $x$ and $y$. ")
              (lit " a^2+b^2=c^2+d^2+e^2 ")) as [Ha Hb].
  destruct (Ha H1 H2 H3) as [Ha1 _]. destruct (Hb H4 H5 H6 H7 H8) as [Hb1 _].
  split; [rewrite Ha1 | rewrite Hb1]; vm_compute; reflexivity.
Defined.

End LatexFacts.